(** * Task Manager: the task model, the task store and their validation

    A shallow embedding of the state-management core of the Task Manager
    (the model functions of [models/Task], the provider of
    [context/TaskContext]), with the JavaScript values, exceptions and
    built-ins they rely on, and the properties proved about them. *)

From Stdlib Require Import ZArith NArith List String Ascii Bool Lia.
From Stdlib Require Import QArith Qround.
From Stdlib Require Import DecimalString HexadecimalString.
From Stdlib Require Import Floats.PrimFloat.
From stdpp Require Import base option list gmap.
Import ListNotations.

Set Warnings "-register-all".
Local Open Scope N_scope.

(** ** JavaScript strings

    A string is its sequence of UTF-16 code units; [length] counts code
    units, as [String.prototype.length] does. *)

Definition jsstring := list N.

(** A source literal made of ASCII characters. *)
Definition lit (s : string) : jsstring :=
  map (fun a => N_of_ascii a) (list_ascii_of_string s).

Arguments lit : simpl never.

Definition str_eqb (a b : jsstring) : bool := bool_decide (a = b).

(** WhiteSpace and LineTerminator code points of ECMAScript, the characters
    [String.prototype.trim] strips: TAB, VT, FF, SP, NBSP, ZWNBSP, the
    space separators (Zs), LF, CR, LS and PS. *)
Definition is_white_space (c : N) : bool :=
  (c =? 0x09) || (c =? 0x0B) || (c =? 0x0C) || (c =? 0x20) || (c =? 0xA0)
  || (c =? 0xFEFF) || (c =? 0x1680) || ((0x2000 <=? c) && (c <=? 0x200A))
  || (c =? 0x202F) || (c =? 0x205F) || (c =? 0x3000)
  || (c =? 0x0A) || (c =? 0x0D) || (c =? 0x2028) || (c =? 0x2029).

Fixpoint trimStart (s : jsstring) : jsstring :=
  match s with
  | c :: r => if is_white_space c then trimStart r else s
  | [] => []
  end.

Definition trimEnd (s : jsstring) : jsstring := rev (trimStart (rev s)).

Definition trim (s : jsstring) : jsstring := trimEnd (trimStart s).

(** Decimal rendering of an array index, as a template literal does. *)
Definition index_to_string (i : nat) : jsstring :=
  lit (DecimalString.NilEmpty.string_of_uint (Nat.to_uint i)).

(** [Number.prototype.toString(16)] on an integer. *)
Definition toString16 (v : Z) : jsstring :=
  lit (HexadecimalString.NilZero.string_of_int (Z.to_hex_int v)).

(** ** JavaScript values

    The values the store can hold or be handed: what JSON can carry, plus
    [undefined].  Numbers are IEEE binary64.  An object is the list of its
    own properties in insertion order, with pairwise distinct keys. *)

Inductive JsVal : Type :=
| JUndefined
| JNull
| JBool (b : bool)
| JNum (x : float)
| JStr (s : jsstring)
| JArr (elems : list JsVal)
| JObj (props : list (jsstring * JsVal)).

Definition typeof (v : JsVal) : jsstring :=
  match v with
  | JUndefined => lit "undefined"
  | JNull => lit "object"
  | JBool _ => lit "boolean"
  | JNum _ => lit "number"
  | JStr _ => lit "string"
  | JArr _ => lit "object"
  | JObj _ => lit "object"
  end.

(** ToBoolean. *)
Definition truthy (v : JsVal) : bool :=
  match v with
  | JUndefined | JNull => false
  | JBool b => b
  | JNum x => negb (PrimFloat.eqb x 0%float || PrimFloat.is_nan x)
  | JStr s => negb (Nat.eqb (length s) 0)
  | JArr _ | JObj _ => true
  end.

(** [===].  Objects and arrays are compared by identity; every node of a
    value tree is an allocation of its own, so two operands that are both
    objects are never the same one. *)
Definition strict_equals (a b : JsVal) : bool :=
  match a, b with
  | JUndefined, JUndefined => true
  | JNull, JNull => true
  | JBool x, JBool y => Bool.eqb x y
  | JNum x, JNum y => PrimFloat.eqb x y
  | JStr x, JStr y => str_eqb x y
  | _, _ => false
  end.

(** SameValueZero, the comparison of [Array.prototype.includes]: as [===]
    but NaN equals NaN. *)
Definition same_value_zero (a b : JsVal) : bool :=
  match a, b with
  | JNum x, JNum y => PrimFloat.eqb x y || (PrimFloat.is_nan x && PrimFloat.is_nan y)
  | _, _ => strict_equals a b
  end.

Definition includes (l : list JsVal) (v : JsVal) : bool :=
  existsb (fun x => same_value_zero x v) l.

Definition isArray (v : JsVal) : bool :=
  match v with JArr _ => true | _ => false end.

(** ** Exceptions *)

Inductive JsError : Type :=
| Error (message : jsstring)
| TypeError.

(** [error.message]; the text of an engine's TypeError is not fixed. *)
Definition message (e : JsError) : jsstring :=
  match e with
  | Error m => m
  | TypeError => lit "TypeError"
  end.

(** The outcome of evaluating a piece of code: a value or a thrown error. *)
Inductive Completion (A : Type) : Type :=
| Return (a : A)
| Throw (e : JsError).
Arguments Return {A} a.
Arguments Throw {A} e.

Definition cbind {A B} (m : Completion A) (k : A -> Completion B) : Completion B :=
  match m with
  | Return a => k a
  | Throw e => Throw e
  end.

Declare Scope js_scope.
Delimit Scope js_scope with js.
Notation "'let!' x ':=' m 'in' k" := (cbind m (fun x => k))
  (at level 10, x name, k at level 200) : js_scope.

(** [try { body } catch (error) { handler }] *)
Definition try_catch {A} (body : Completion A) (handler : JsError -> Completion A)
  : Completion A :=
  match body with
  | Return a => Return a
  | Throw e => handler e
  end.

Fixpoint assoc (k : jsstring) (props : list (jsstring * JsVal)) : option JsVal :=
  match props with
  | [] => None
  | (k', v) :: rest => if str_eqb k' k then Some v else assoc k rest
  end.

(** [v.k] for a property name [k] that no built-in prototype and no array
    or string defines ([id], [title], [completed] are such names): the own
    property of an object, [undefined] on any other value, and a TypeError
    on [null] and [undefined]. *)
Definition get_prop (v : JsVal) (k : jsstring) : Completion JsVal :=
  match v with
  | JUndefined | JNull => Throw TypeError
  | JObj props => Return (default JUndefined (assoc k props))
  | _ => Return JUndefined
  end.

(** ** The platform and the effects of the program

    What the code reads and changes outside its own variables: the
    browser's [localStorage], the console, the random sources, and the two
    pieces of state the provider holds through [useLocalStorage]. *)

(** The text stored under a key, seen through [JSON.parse]: either it
    parses to a value, or it does not parse. *)
Inductive Raw : Type :=
| Malformed
| Json (v : JsVal).

Record LocalStorage := {
  items : gmap jsstring Raw;
  getItem_raises : bool;     (* access to the store is denied *)
  setItem_raises : bool      (* the quota is exceeded *)
}.

Inductive LogLevel := Warn | Err.

Record LogEntry := { level : LogLevel; text : jsstring; payload : JsError }.

Record Crypto := { randomUUID : option (nat -> jsstring) }.

Record World := {
  tasks : JsVal;                 (* state of [useLocalStorage('tasks', [])] *)
  filter : JsVal;                (* state of [useLocalStorage('filter', 'all')] *)
  localStorage : LocalStorage;
  console : list LogEntry;       (* most recent entry first *)
  crypto : option Crypto;        (* [None]: [typeof crypto === 'undefined'] *)
  uuid_calls : nat;              (* calls of [crypto.randomUUID] so far *)
  random : nat -> Q;             (* the successive results of [Math.random] *)
  random_calls : nat             (* calls of [Math.random] so far *)
}.

Definition with_tasks (v : JsVal) (w : World) : World :=
  {| tasks := v; filter := filter w; localStorage := localStorage w;
     console := console w; crypto := crypto w; uuid_calls := uuid_calls w;
     random := random w; random_calls := random_calls w |}.

Definition with_filter (v : JsVal) (w : World) : World :=
  {| tasks := tasks w; filter := v; localStorage := localStorage w;
     console := console w; crypto := crypto w; uuid_calls := uuid_calls w;
     random := random w; random_calls := random_calls w |}.

Definition with_localStorage (ls : LocalStorage) (w : World) : World :=
  {| tasks := tasks w; filter := filter w; localStorage := ls;
     console := console w; crypto := crypto w; uuid_calls := uuid_calls w;
     random := random w; random_calls := random_calls w |}.

Definition with_console (c : list LogEntry) (w : World) : World :=
  {| tasks := tasks w; filter := filter w; localStorage := localStorage w;
     console := c; crypto := crypto w; uuid_calls := uuid_calls w;
     random := random w; random_calls := random_calls w |}.

Definition with_uuid_calls (n : nat) (w : World) : World :=
  {| tasks := tasks w; filter := filter w; localStorage := localStorage w;
     console := console w; crypto := crypto w; uuid_calls := n;
     random := random w; random_calls := random_calls w |}.

Definition with_random_calls (n : nat) (w : World) : World :=
  {| tasks := tasks w; filter := filter w; localStorage := localStorage w;
     console := console w; crypto := crypto w; uuid_calls := uuid_calls w;
     random := random w; random_calls := n |}.

(** Code with effects: it runs in a world, completes with a value or an
    exception, and leaves a world.  An exception does not undo what was
    done before it. *)
Definition Eff (A : Type) : Type := World -> Completion A * World.

Definition ret {A} (a : A) : Eff A := fun w => (Return a, w).

Definition throw {A} (e : JsError) : Eff A := fun w => (Throw e, w).

Definition bind {A B} (m : Eff A) (k : A -> Eff B) : Eff B :=
  fun w =>
    match m w with
    | (Return a, w') => k a w'
    | (Throw e, w') => (Throw e, w')
    end.

(** Code without effects, run inside code with effects. *)
Definition pure {A} (c : Completion A) : Eff A := fun w => (c, w).

Definition try_catch_eff {A} (body : Eff A) (handler : JsError -> Eff A) : Eff A :=
  fun w =>
    match body w with
    | (Return a, w') => (Return a, w')
    | (Throw e, w') => handler e w'
    end.

Declare Scope eff_scope.
Delimit Scope eff_scope with eff.
Notation "'let!' x ':=' m 'in' k" := (bind m (fun x => k))
  (at level 10, x name, k at level 200) : eff_scope.

Definition console_warn (msg : jsstring) (error : JsError) : Eff unit :=
  fun w => (Return tt,
            with_console ({| level := Warn; text := msg; payload := error |} :: console w) w).

Definition console_error (msg : jsstring) (error : JsError) : Eff unit :=
  fun w => (Return tt,
            with_console ({| level := Err; text := msg; payload := error |} :: console w) w).

(** [Math.random()]: the next number of the source, in the interval
    from 0 to 1 (1 excluded).  A binary64 number is a rational, and the
    one operation applied to it below, the product by 16, is exact. *)
Definition Math_random : Eff Q :=
  fun w => (Return (random w (random_calls w)), with_random_calls (S (random_calls w)) w).

(** ToInt32, the conversion made by the bitwise operators: truncation
    toward zero, then wrap-around to 32 signed bits. *)
Definition trunc (x : Q) : Z :=
  if Qle_bool 0 x then Qfloor x else Qceiling x.

Definition ToInt32 (x : Q) : Z :=
  ((trunc x + 2 ^ 31) mod 2 ^ 32 - 2 ^ 31)%Z.

(** ** The task model ([models/Task]) *)

Module Task.

(** The failures of the model, by the message the source gives them. *)
Definition InvalidTitle : JsError := Error (lit "Task title must be a string").
Definition EmptyTitle : JsError := Error (lit "Task title cannot be empty").
Definition TitleTooLong : JsError := Error (lit "Task title cannot exceed 500 characters").
Definition NotAnObject : JsError := Error (lit "Task must be an object").
Definition MissingId : JsError := Error (lit "Task must have a valid id").
Definition InvalidId : JsError := Error (lit "Task id must be a valid UUID").
Definition InvalidCompletedFlag : JsError :=
  Error (lit "Task completed status must be a boolean").
Definition NotAnArray : JsError := Error (lit "Tasks must be an array").
Definition InvalidTaskAt (index : nat) (inner : JsError) : JsError :=
  Error (lit "Invalid task at index " ++ index_to_string index ++ lit ": " ++ message inner).

(** [Array.prototype.join] on an array of strings. *)
Fixpoint join (sep : jsstring) (l : list jsstring) : jsstring :=
  match l with
  | [] => []
  | [s] => s
  | s :: rest => s ++ sep ++ join sep rest
  end.

Definition validFilterNames : list jsstring :=
  [lit "all"; lit "completed"; lit "pending"].

Definition InvalidFilter : JsError :=
  Error (lit "Filter must be one of: " ++ join (lit ", ") validFilterNames).

Definition validateTaskTitle (title : JsVal) : Completion jsstring :=
  match title with
  | JStr s =>
      let trimmedTitle := trim s in
      if Nat.eqb (length trimmedTitle) 0 then Throw EmptyTitle
      else if Nat.ltb 500 (length trimmedTitle) then Throw TitleTooLong
      else Return trimmedTitle
  | _ => Throw InvalidTitle
  end.

(** *** The UUID pattern

    [/^[0-9a-f]{8}-[0-9a-f]{4}-4[0-9a-f]{3}-[89ab][0-9a-f]{3}-[0-9a-f]{12}$/i]
    is a sequence of character classes, each repeated a fixed number of
    times, anchored at both ends. *)

Definition in_range (lo hi c : N) : bool := (lo <=? c) && (c <=? hi).

(** Canonicalize of a regular expression without the [u] flag, on the
    characters it can map to ASCII: lower-case ASCII letters go to upper
    case; a character outside ASCII never canonicalizes into ASCII. *)
Definition upper (c : N) : N := if in_range 97 122 c then c - 32 else c.
Definition lower (c : N) : N := if in_range 65 90 c then c + 32 else c.

(** A class of ASCII characters under the [i] flag: [c] matches when some
    member of the class has the same canonical form. *)
Definition ignore_case (cls : N -> bool) (c : N) : bool :=
  cls c || cls (upper c) || cls (lower c).

Definition hex_class (c : N) : bool := in_range 48 57 c || in_range 97 102 c.
Definition variant_class (c : N) : bool :=
  (c =? 56) || (c =? 57) || (c =? 97) || (c =? 98).
Definition char_class (x : N) (c : N) : bool := c =? x.

Record Piece := { accepts : N -> bool; times : nat }.

Definition hyphen : Piece := {| accepts := char_class 45; times := 1 |}.
Definition hexes (n : nat) : Piece := {| accepts := hex_class; times := n |}.

Definition uuidRegex : list Piece :=
  [ hexes 8; hyphen; hexes 4; hyphen;
    {| accepts := char_class 52; times := 1 |}; hexes 3; hyphen;
    {| accepts := variant_class; times := 1 |}; hexes 3; hyphen; hexes 12 ].

Fixpoint match_times (cls : N -> bool) (n : nat) (s : jsstring) : option jsstring :=
  match n with
  | O => Some s
  | S n' =>
      match s with
      | c :: r => if cls c then match_times cls n' r else None
      | [] => None
      end
  end.

(** [regex.test(s)] for a pattern [^ ... $] with the [i] flag. *)
Fixpoint regex_test (re : list Piece) (s : jsstring) : bool :=
  match re with
  | [] => match s with [] => true | _ => false end
  | p :: re' =>
      match match_times (ignore_case (accepts p)) (times p) s with
      | Some r => regex_test re' r
      | None => false
      end
  end.

Definition isValidUUID (uuid : JsVal) : bool :=
  match uuid with
  | JStr s => regex_test uuidRegex s
  | _ => false
  end.

Local Open Scope js_scope.

Definition validateTask (task : JsVal) : Completion JsVal :=
  if negb (truthy task) || negb (str_eqb (typeof task) (lit "object"))
  then Throw NotAnObject
  else
    let! id := get_prop task (lit "id") in
    if negb (truthy id) || negb (str_eqb (typeof id) (lit "string"))
    then Throw MissingId
    else if negb (isValidUUID id) then Throw InvalidId
    else
      let! title := get_prop task (lit "title") in
      let! _ := validateTaskTitle title in
      let! completed := get_prop task (lit "completed") in
      if negb (str_eqb (typeof completed) (lit "boolean"))
      then Throw InvalidCompletedFlag
      else Return (JBool true).

(** [tasks.forEach((task, index) => ...)] from [index] on: the first
    element that fails stops the loop with the wrapped error. *)
Fixpoint forEach_validate (index : nat) (tasks : list JsVal) : Completion unit :=
  match tasks with
  | [] => Return tt
  | task :: rest =>
      let! _ := try_catch (let! _ := validateTask task in Return tt)
                          (fun error => Throw (InvalidTaskAt index error)) in
      forEach_validate (S index) rest
  end.

Definition validateTasksArray (tasks : JsVal) : Completion JsVal :=
  match tasks with
  | JArr elems => let! _ := forEach_validate 0 elems in Return (JBool true)
  | _ => Throw NotAnArray
  end.

Definition validFilters : list JsVal := map JStr validFilterNames.

Definition validateFilter (filter : JsVal) : Completion JsVal :=
  if negb (includes validFilters filter) then Throw InvalidFilter
  else Return (JBool true).

Local Open Scope eff_scope.

Definition uuidTemplate : jsstring := lit "xxxxxxxx-xxxx-4xxx-yxxx-xxxxxxxxxxxx".

(** The replacement function of the fallback: one random hexadecimal
    digit for [x], one of 8, 9, a, b for [y]. *)
Definition replacer (c : N) : Eff jsstring :=
  let! u := Math_random in
  let r := Z.lor (ToInt32 (u * 16)%Q) 0 in
  let v := if c =? 120 then r else Z.lor (Z.land r 0x3) 0x8 in
  ret (toString16 v).

(** [template.replace(/[xy]/g, replacer)]: the characters of the template
    from left to right, each [x] and [y] replaced by what the function
    returns for it. *)
Fixpoint replace_xy (template : jsstring) : Eff jsstring :=
  match template with
  | [] => ret []
  | c :: rest =>
      let! piece := (if (c =? 120) || (c =? 121) then replacer c else ret [c]) in
      let! tail := replace_xy rest in
      ret (piece ++ tail)
  end.

Definition crypto_randomUUID (source : nat -> jsstring) : Eff jsstring :=
  fun w => (Return (source (uuid_calls w)), with_uuid_calls (S (uuid_calls w)) w).

Definition generateTaskId : Eff jsstring :=
  fun w =>
    match crypto w with
    | Some {| randomUUID := Some source |} => crypto_randomUUID source w
    | _ => replace_xy uuidTemplate w
    end.

Definition createTask (title : JsVal) : Eff JsVal :=
  let! validatedTitle := pure (validateTaskTitle title) in
  let! id := generateTaskId in
  ret (JObj [ (lit "id", JStr id);
              (lit "title", JStr validatedTitle);
              (lit "completed", JBool false) ]).

End Task.

(** ** The storage hook ([hooks/useLocalStorage]) *)

Module useLocalStorage.

Local Open Scope eff_scope.

(** Modelled from the spec: the hook [useLocalStorage] (the file
    [hooks/useLocalStorage] is not among the sources; section 4.1 of the
    specification and the hook's tests describe it).  [read] looks the key
    up in the backing store and returns the fallback when the key is
    absent, when the stored text does not deserialize and when the store
    raises on access; the last two emit a diagnostic. *)
Definition read_failure (key : jsstring) : jsstring :=
  lit "Error reading localStorage key " ++ [34] ++ key ++ [34] ++ lit ":".

Definition write_failure (key : jsstring) : jsstring :=
  lit "Error setting localStorage key " ++ [34] ++ key ++ [34] ++ lit ":".

Definition StorageError : JsError := Error (lit "localStorage").

Definition read (key : jsstring) (fallback : JsVal) (ls : LocalStorage)
  : JsVal * list LogEntry :=
  if getItem_raises ls
  then (fallback, [ {| level := Warn; text := read_failure key; payload := StorageError |} ])
  else
    match items ls !! key with
    | None => (fallback, [])
    | Some Malformed =>
        (fallback, [ {| level := Warn; text := read_failure key; payload := StorageError |} ])
    | Some (Json v) => (v, [])
    end.

(** Modelled from the spec: [write] serializes the value and stores it
    under the key; when the backing store raises, the failure is caught
    and a diagnostic emitted.  The serialization of a value that JSON can
    carry deserializes to that value. *)
Definition write (key : jsstring) (value : JsVal) : Eff unit :=
  fun w =>
    let ls := localStorage w in
    if setItem_raises ls
    then console_error (write_failure key) StorageError w
    else (Return tt,
          with_localStorage {| items := <[ key := Json value ]> (items ls);
                               getItem_raises := getItem_raises ls;
                               setItem_raises := setItem_raises ls |} w).

(** The argument of a setter: a value, or a function of the previous
    value, as for the setter of [useState]. *)
Inductive SetArg : Type :=
| Value (v : JsVal)
| Updater (f : JsVal -> Completion JsVal).

Definition next_value (arg : SetArg) (prev : JsVal) : Completion JsVal :=
  match arg with
  | Value v => Return v
  | Updater f => f prev
  end.

(** Modelled from the spec: the setter the hook returns updates the value
    in memory, then persists it; the value in memory is kept whether or
    not the write succeeds.  An exception of the updater reaches the
    caller, with nothing changed. *)
Definition setTasks (arg : SetArg) : Eff unit :=
  fun w =>
    match next_value arg (tasks w) with
    | Throw e => (Throw e, w)
    | Return v => write (lit "tasks") v (with_tasks v w)
    end.

Definition setFilterState (arg : SetArg) : Eff unit :=
  fun w =>
    match next_value arg (filter w) with
    | Throw e => (Throw e, w)
    | Return v => write (lit "filter") v (with_filter v w)
    end.

(** Modelled from the spec: the first render of the provider, whose two
    hooks read their initial state from the store, [useLocalStorage('tasks', [])]
    and [useLocalStorage('filter', 'all')]. *)
Definition mount (ls : LocalStorage) (c : option Crypto) (rnd : nat -> Q) : World :=
  let '(t, log_t) := read (lit "tasks") (JArr []) ls in
  let '(f, log_f) := read (lit "filter") (JStr (lit "all")) ls in
  {| tasks := t; filter := f; localStorage := ls; console := log_f ++ log_t;
     crypto := c; uuid_calls := 0; random := rnd; random_calls := 0 |}.

End useLocalStorage.

(** ** Array and object built-ins the provider uses *)

Local Open Scope js_scope.

Fixpoint filter_elems (callback : JsVal -> Completion JsVal) (l : list JsVal)
  : Completion (list JsVal) :=
  match l with
  | [] => Return []
  | x :: rest =>
      let! keep := callback x in
      let! rest' := filter_elems callback rest in
      Return (if truthy keep then x :: rest' else rest')
  end.

(** [this.filter(callback)]; only an array has the method. *)
Definition Array_filter (callback : JsVal -> Completion JsVal) (this : JsVal)
  : Completion JsVal :=
  match this with
  | JArr l => let! l' := filter_elems callback l in Return (JArr l')
  | _ => Throw TypeError
  end.

Fixpoint map_elems (callback : JsVal -> Completion JsVal) (l : list JsVal)
  : Completion (list JsVal) :=
  match l with
  | [] => Return []
  | x :: rest =>
      let! y := callback x in
      let! rest' := map_elems callback rest in
      Return (y :: rest')
  end.

(** [this.map(callback)]; only an array has the method. *)
Definition Array_map (callback : JsVal -> Completion JsVal) (this : JsVal)
  : Completion JsVal :=
  match this with
  | JArr l => let! l' := map_elems callback l in Return (JArr l')
  | _ => Throw TypeError
  end.

Definition is_high_surrogate (c : N) : bool := (0xD800 <=? c) && (c <=? 0xDBFF).
Definition is_low_surrogate (c : N) : bool := (0xDC00 <=? c) && (c <=? 0xDFFF).

(** The iteration of a string: by code points, a surrogate pair being one
    element. *)
Fixpoint code_points (s : jsstring) : list JsVal :=
  match s with
  | [] => []
  | hi :: t =>
      match t with
      | lo :: r =>
          if is_high_surrogate hi && is_low_surrogate lo
          then JStr [hi; lo] :: code_points r
          else JStr [hi] :: code_points t
      | [] => [JStr [hi]]
      end
  end.

(** The elements [...v] contributes to an array literal: arrays and
    strings are iterable, the other values are not. *)
Definition spread_elements (v : JsVal) : Completion (list JsVal) :=
  match v with
  | JArr l => Return l
  | JStr s => Return (code_points s)
  | _ => Throw TypeError
  end.

(** The own enumerable properties [{...v}] copies: the properties of an
    object, the indexed elements of an array, the indexed code units of a
    string, nothing for the other values. *)
Definition own_properties (v : JsVal) : list (jsstring * JsVal) :=
  match v with
  | JObj props => props
  | JArr l => imap (fun i x => (index_to_string i, x)) l
  | JStr s => imap (fun i c => (index_to_string i, JStr [c])) s
  | _ => []
  end.

(** Defining property [k] in an object literal after a spread: the value
    of an existing property is replaced where it stands, a new property
    comes last. *)
Fixpoint set_prop (k : jsstring) (v : JsVal) (props : list (jsstring * JsVal))
  : list (jsstring * JsVal) :=
  match props with
  | [] => [(k, v)]
  | (k', v') :: rest =>
      if str_eqb k' k then (k', v) :: rest else (k', v') :: set_prop k v rest
  end.

(** ** The task store ([context/TaskContext]) *)

Module TaskContext.

Import Task useLocalStorage.

Record ContextValue := {
  cv_tasks : JsVal;
  cv_filter : JsVal;
  cv_filteredTasks : JsVal
}.

Local Open Scope eff_scope.

Definition validatedTasks : Eff JsVal :=
  fun w =>
    let tasks := tasks w in
    try_catch_eff
      (let! _ := pure (validateTasksArray tasks) in
       ret tasks)
      (fun error =>
         let! _ := console_warn
                     (lit "Invalid tasks data in localStorage, resetting to empty array:")
                     error in
         let! _ := setTasks (Value (JArr [])) in
         ret (JArr []))
      w.

Definition validatedFilter : Eff JsVal :=
  fun w =>
    let filter := filter w in
    try_catch_eff
      (let! _ := pure (validateFilter filter) in
       ret filter)
      (fun error =>
         let! _ := console_warn
                     (lit "Invalid filter in localStorage, resetting to " ++ [34]
                      ++ lit "all" ++ [34] ++ lit ":")
                     error in
         let! _ := setFilterState (Value (JStr (lit "all"))) in
         ret (JStr (lit "all")))
      w.

(** [prevTasks => [...prevTasks, newTask]] *)
Definition append_task (newTask : JsVal) (prevTasks : JsVal) : Completion JsVal :=
  (let! elems := spread_elements prevTasks in
   Return (JArr (elems ++ [newTask])))%js.

Definition addTask (title : JsVal) : Eff unit :=
  try_catch_eff
    (let! newTask := createTask title in
     setTasks (Updater (append_task newTask)))
    (fun error => throw error).

(** [task => task.id === id ? { ...task, completed: !task.completed } : task] *)
Definition toggle_task (id : JsVal) (task : JsVal) : Completion JsVal :=
  (let! task_id := get_prop task (lit "id") in
   if strict_equals task_id id
   then
     let! completed := get_prop task (lit "completed") in
     Return (JObj (set_prop (lit "completed") (JBool (negb (truthy completed)))
                            (own_properties task)))
   else Return task)%js.

Definition toggleTaskCompletion (id : JsVal) : Eff unit :=
  setTasks (Updater (fun prevTasks => Array_map (toggle_task id) prevTasks)).

(** [task => task.id !== id] *)
Definition other_task (id : JsVal) (task : JsVal) : Completion JsVal :=
  (let! task_id := get_prop task (lit "id") in
   Return (JBool (negb (strict_equals task_id id))))%js.

Definition deleteTask (id : JsVal) : Eff unit :=
  setTasks (Updater (fun prevTasks => Array_filter (other_task id) prevTasks)).

Definition setFilter (newFilter : JsVal) : Eff unit :=
  try_catch_eff
    (let! _ := pure (validateFilter newFilter) in
     setFilterState (Value newFilter))
    (fun error =>
       let! _ := console_error (lit "Invalid filter:") error in
       throw error).

(** [task => task.completed] and [task => !task.completed] *)
Definition is_completed (task : JsVal) : Completion JsVal :=
  get_prop task (lit "completed").

Definition is_pending (task : JsVal) : Completion JsVal :=
  (let! completed := get_prop task (lit "completed") in
   Return (JBool (negb (truthy completed))))%js.

(** The [switch] compares with [===]. *)
Definition filteredTasks (validatedTasks validatedFilter : JsVal) : Completion JsVal :=
  if strict_equals validatedFilter (JStr (lit "completed"))
  then Array_filter is_completed validatedTasks
  else if strict_equals validatedFilter (JStr (lit "pending"))
  then Array_filter is_pending validatedTasks
  else Return validatedTasks.

(** One render of the provider: the value it hands to its consumers.
    [useMemo] recomputes a value when one of its dependencies has changed;
    on unchanged state the recomputation gives the same value and has no
    effect, so a render is modelled as computing the three values anew. *)
Definition TaskProvider : Eff ContextValue :=
  let! vTasks := validatedTasks in
  let! vFilter := validatedFilter in
  let! fTasks := pure (filteredTasks vTasks vFilter) in
  ret {| cv_tasks := vTasks; cv_filter := vFilter; cv_filteredTasks := fTasks |}.

(** *** The store as a machine

    The consumers call one operation at a time; an operation runs to its
    end, an exception it raises is the caller's to catch, and the provider
    renders again before the next one. *)

Inductive Operation : Type :=
| AddTask (title : JsVal)
| ToggleTaskCompletion (id : JsVal)
| DeleteTask (id : JsVal)
| SetFilter (newFilter : JsVal).

Definition perform (op : Operation) : Eff unit :=
  match op with
  | AddTask title => addTask title
  | ToggleTaskCompletion id => toggleTaskCompletion id
  | DeleteTask id => deleteTask id
  | SetFilter newFilter => setFilter newFilter
  end.

Definition rendered (w : World) : World := snd (TaskProvider w).

Definition step (op : Operation) (w : World) : World :=
  rendered (snd (perform op w)).

Definition run (ops : list Operation) (w : World) : World :=
  fold_left (fun w op => step op w) ops w.

End TaskContext.

(** ** The form and the item ([components/TaskForm], [components/TaskItem]) *)

Module TaskForm.

Import TaskContext.

Local Open Scope eff_scope.

(** The two pieces of [useState] of the form. *)
Record FormState := { inputValue : jsstring; error : jsstring }.

Definition handleInputChange (value : jsstring) (st : FormState) : FormState :=
  {| inputValue := value;
     error := if truthy (JStr (error st)) then [] else error st |}.


End TaskForm.

Module TaskItem.

Import TaskContext.

Local Open Scope eff_scope.

Definition handleToggleCompletion (task : JsVal) : Eff unit :=
  let! id := pure (get_prop task (lit "id")) in
  toggleTaskCompletion id.

Definition handleDelete (task : JsVal) : Eff unit :=
  let! id := pure (get_prop task (lit "id")) in
  deleteTask id.

End TaskItem.

(** ** The filter buttons and the list ([components/TaskFilters],
    [components/TaskList]) *)

Module TaskFilters.

Import TaskContext.

(** The buttons: key and label. *)
Definition filters : list (jsstring * jsstring) :=
  [ (lit "all", lit "All");
    (lit "completed", lit "Completed");
    (lit "pending", lit "Pending") ].

Definition handleFilterChange (newFilter : JsVal) : Eff unit :=
  setFilter newFilter.

(** [aria-pressed={filter === key}] *)
Definition pressed (cv : ContextValue) (key : jsstring) : bool :=
  strict_equals (cv_filter cv) (JStr key).

End TaskFilters.

Module TaskList.

Import TaskContext.

Local Open Scope js_scope.

(** What the list renders: the message of an empty list, or one item per
    task with its key. *)
Inductive ListView : Type :=
| EmptyMessage (text : jsstring)
| TaskItems (items : list (JsVal * JsVal)).

(** [v.length === 0] *)
Definition length_is_zero (v : JsVal) : Completion bool :=
  match v with
  | JUndefined | JNull => Throw TypeError
  | JArr l => Return (Nat.eqb (length l) 0)
  | JStr s => Return (Nat.eqb (length s) 0)
  | JObj props =>
      Return (strict_equals (default JUndefined (assoc (lit "length") props)) (JNum 0%float))
  | _ => Return false
  end.

Definition getEmptyMessage (filter : JsVal) : jsstring :=
  if strict_equals filter (JStr (lit "completed")) then lit "No completed tasks yet."
  else if strict_equals filter (JStr (lit "pending")) then lit "No pending tasks. Great job!"
  else lit "No tasks yet. Add one above to get started!".

Fixpoint items_of (l : list JsVal) : Completion (list (JsVal * JsVal)) :=
  match l with
  | [] => Return []
  | task :: rest =>
      let! key := get_prop task (lit "id") in
      let! rest' := items_of rest in
      Return ((key, task) :: rest')
  end.

Definition TaskList (cv : ContextValue) : Completion ListView :=
  let! empty := length_is_zero (cv_filteredTasks cv) in
  if empty then Return (EmptyMessage (getEmptyMessage (cv_filter cv)))
  else
    match cv_filteredTasks cv with
    | JArr l => let! items := items_of l in Return (TaskItems items)
    | _ => Throw TypeError
    end.

End TaskList.

(** ** Definitions for the statements

    The notions the properties are stated with: the UUID pattern and the
    well-formed task in the specification's words, and sample values. *)

Module Spec.

Import Task.

(** The pattern in the specification's words: 36 characters in groups of
    8, 4, 4, 4 and 12 hexadecimal digits of either case, separated by
    hyphens; the first digit of the third group is 4, the first digit of
    the fourth group is one of 8, 9, a, b. *)
Definition is_hex_digit (c : N) : bool :=
  in_range 48 57 c || in_range 97 102 c || in_range 65 70 c.

Definition is_variant_digit (c : N) : bool :=
  (c =? 56) || (c =? 57) || (c =? 97) || (c =? 98) || (c =? 65) || (c =? 66).

Definition position_ok (i : nat) (c : N) : bool :=
  match i with
  | 8%nat | 13%nat | 18%nat | 23%nat => c =? 45
  | 14%nat => c =? 52
  | 19%nat => is_variant_digit c
  | _ => is_hex_digit c
  end.

Definition canonical_uuid_v4 (s : jsstring) : Prop :=
  length s = 36%nat /\ forall i c, s !! i = Some c -> position_ok i c = true.

(** The classes of the pattern, one per character of the subject. *)
Definition unfold_pieces (re : list Piece) : list (N -> bool) :=
  concat (map (fun p => replicate (times p) (ignore_case (accepts p))) re).

(** The value of [v.k] where reading it does not throw. *)
Definition field (v : JsVal) (k : jsstring) : JsVal :=
  match get_prop v k with
  | Return x => x
  | Throw _ => JUndefined
  end.

Definition object_shaped (v : JsVal) : Prop :=
  typeof v = lit "object" /\ v <> JNull.

Definition valid_id (x : JsVal) : Prop :=
  exists s, x = JStr s /\ canonical_uuid_v4 s.

Definition valid_title (x : JsVal) : Prop :=
  exists s, x = JStr s /\ (0 < length (trim s) <= 500)%nat.

Definition is_boolean (x : JsVal) : Prop := exists b, x = JBool b.

(** A well-formed task, as the type [Task] of the model documents it. *)
Definition valid_task (v : JsVal) : Prop :=
  object_shaped v /\ valid_id (field v (lit "id")) /\
  valid_title (field v (lit "title")) /\ is_boolean (field v (lit "completed")).

Definition title_failure (e : JsError) : Prop :=
  e = InvalidTitle \/ e = EmptyTitle \/ e = TitleTooLong.

(** A well-formed collection: an array of well-formed tasks. *)
Definition valid_tasks (v : JsVal) : Prop :=
  exists l, v = JArr l /\ Forall valid_task l.

Definition valid_filter (v : JsVal) : Prop :=
  v = JStr (lit "all") \/ v = JStr (lit "completed") \/ v = JStr (lit "pending").

(** [task.id === id] *)
Definition has_id (id : JsVal) (task : JsVal) : bool :=
  strict_equals (field task (lit "id")) id.

(** [task.completed === b] *)
Definition completed_is (b : bool) (task : JsVal) : bool :=
  strict_equals (field task (lit "completed")) (JBool b).

(** The task with its [completed] flag negated. *)
Definition flipped (task : JsVal) : JsVal :=
  match field task (lit "completed") with
  | JBool b => JObj (set_prop (lit "completed") (JBool (negb b)) (own_properties task))
  | _ => task
  end.

(** The elements of an array value, none for another value. *)
Definition elements_of (v : JsVal) : list JsVal :=
  match v with
  | JArr l => l
  | _ => []
  end.

(** The collection after [toggleTaskCompletion(id)]: the tasks with that
    id flipped, the others as they were. *)
Definition toggled (id : JsVal) (l : list JsVal) : list JsVal :=
  map (fun task => if has_id id task then flipped task else task) l.

(** The collection after [deleteTask(id)]: the tasks with another id, in
    their order. *)
Definition without (id : JsVal) (l : list JsVal) : list JsVal :=
  List.filter (fun task => negb (has_id id task)) l.

(** The subsequence of the tasks whose [completed] is [b]. *)
Definition with_completed (b : bool) (l : list JsVal) : list JsVal :=
  List.filter (completed_is b) l.

(** The persisted entry of a key. *)
Definition persisted (key : jsstring) (w : World) : option Raw :=
  items (localStorage w) !! key.

(** Two worlds that differ at most in how far the random sources have been
    consumed. *)
Definition same_store (w w' : World) : Prop :=
  tasks w' = tasks w /\ filter w' = filter w /\ localStorage w' = localStorage w
  /\ console w' = console w /\ random w' = random w /\ crypto w' = crypto w.

(** The collection and the filter a render exposes: the ones in memory
    when they pass validation, the defaults otherwise. *)
Definition validated_tasks (w : World) : JsVal :=
  match validateTasksArray (tasks w) with
  | Return _ => tasks w
  | Throw _ => JArr []
  end.

Definition validated_filter (w : World) : JsVal :=
  match validateFilter (filter w) with
  | Return _ => filter w
  | Throw _ => JStr (lit "all")
  end.

(** What a render exposes, when it completes normally. *)
Definition exposed (w : World) : option TaskContext.ContextValue :=
  match fst (TaskContext.TaskProvider w) with
  | Return cv => Some cv
  | Throw _ => None
  end.

(** The side of the tasks in a render: the collection exposed, the
    collection left in memory, the entry left under [tasks]; and likewise
    the side of the filter. *)
Definition tasks_side (w : World) : option JsVal * JsVal * option Raw :=
  (option_map TaskContext.cv_tasks (exposed w),
   tasks (TaskContext.rendered w),
   persisted (lit "tasks") (TaskContext.rendered w)).

Definition filter_side (w : World) : option JsVal * JsVal * option Raw :=
  (option_map TaskContext.cv_filter (exposed w),
   filter (TaskContext.rendered w),
   persisted (lit "filter") (TaskContext.rendered w)).

(** *** Generated ids *)

(** The contract of the platform's random sources: [Math.random] returns
    numbers from 0 (included) to 1 (excluded); [crypto.randomUUID], where
    the platform has it, returns version 4 UUIDs. *)
Definition unit_interval (rnd : nat -> Q) : Prop :=
  forall i, (0 <= rnd i)%Q /\ (rnd i < 1)%Q.

Definition platform_ok (w : World) : Prop :=
  unit_interval (random w) /\
  forall source, crypto w = Some {| randomUUID := Some source |} ->
                 forall n, isValidUUID (JStr (source n)) = true.

(** The platform has no [crypto.randomUUID]: ids come from the fallback. *)
Definition fallback_only (w : World) : Prop :=
  crypto w = None \/ crypto w = Some {| randomUUID := None |}.


(** The integer the fallback draws at the [k]-th call of [Math.random], and
    the digit it writes for template character [c]. *)
Definition draw (rnd : nat -> Q) (k : nat) : Z :=
  Z.lor (ToInt32 (rnd k * 16)%Q) 0.

Definition digit_for (c : N) (r : Z) : Z :=
  if c =? 120 then r else Z.lor (Z.land r 0x3) 0x8.

Definition is_placeholder (c : N) : bool := (c =? 120) || (c =? 121).


Fixpoint fill (template : jsstring) (rnd : nat -> Q) (k : nat) : jsstring :=
  match template with
  | [] => []
  | c :: rest =>
      if is_placeholder c then toString16 (digit_for c (draw rnd k)) ++ fill rest rnd (S k)
      else c :: fill rest rnd k
  end.

Definition placeholders (template : jsstring) : nat :=
  length (List.filter is_placeholder template).

(** The character of a hexadecimal digit, lower case. *)
Definition hexchar (d : Z) : N :=
  if (d <? 10)%Z then Z.to_N d + 48 else Z.to_N d + 87.

(** What a character of a filled template must be, given the character of
    the template. *)
Definition fills (tc c : N) : Prop :=
  if tc =? 120 then is_hex_digit c = true
  else if tc =? 121 then is_variant_digit c = true
  else c = tc.


(** A string that neither begins nor ends with white space. *)
Definition starts_clean (s : jsstring) : Prop :=
  match s with
  | [] => True
  | c :: _ => is_white_space c = false
  end.

Definition trimmed (s : jsstring) : Prop :=
  starts_clean s /\ starts_clean (rev s).

(** The ids of the tasks of a collection, in order. *)
Definition ids_of (l : list JsVal) : list JsVal :=
  map (fun task => field task (lit "id")) l.

(** A store with no entry, which accepts reads and writes. *)
Definition empty_storage : LocalStorage :=
  {| items := ∅; getItem_raises := false; setItem_raises := false |}.

Definition sample_id : jsstring := lit "123e4567-e89b-42d3-a456-426614174000".

(** A task object with the three fields, in the order [createTask] gives
    them. *)
Definition task_with (id title completed : JsVal) : JsVal :=
  JObj [ (lit "id", id); (lit "title", title); (lit "completed", completed) ].

(** A store that holds one pending task. *)
Definition sample_world : World :=
  with_tasks (JArr [task_with (JStr sample_id) (JStr (lit "Buy milk")) (JBool false)])
             (useLocalStorage.mount empty_storage None (fun _ => 0%Q)).


(** [validateTask] with each failure kind characterised by its own
    condition alone, whatever the other fields are. *)
Definition validateTask_as_claimed (v : JsVal) : Prop :=
  let id := field v (lit "id") in
  let title := field v (lit "title") in
  let completed := field v (lit "completed") in
  (validateTask v = Throw NotAnObject <-> v = JNull \/ typeof v <> lit "object") /\
  (validateTask v = Throw MissingId <-> typeof id <> lit "string") /\
  (validateTask v = Throw InvalidId <-> exists s, id = JStr s /\ ~ canonical_uuid_v4 s) /\
  (validateTask v = Throw InvalidCompletedFlag <-> ~ is_boolean completed) /\
  (validateTask v = Return (JBool true) <->
     object_shaped v /\ valid_id id /\ valid_title title /\ is_boolean completed).

End Spec.

(** * Properties *)

(** ** Strings and character classes *)

Lemma str_eqb_eq (a b : jsstring) : str_eqb a b = true <-> a = b.
Proof. unfold str_eqb. apply bool_decide_eq_true. Qed.

Lemma str_eqb_refl (a : jsstring) : str_eqb a a = true.
Proof. apply str_eqb_eq. reflexivity. Qed.

Lemma str_eqb_neq (a b : jsstring) : str_eqb a b = false <-> a <> b.
Proof. unfold str_eqb. apply bool_decide_eq_false. Qed.

(** Boolean comparisons on code units, turned into arithmetic. *)
Ltac code_units :=
  repeat match goal with
         | H : _ && _ = true |- _ => apply andb_true_iff in H; destruct H
         | H : _ || _ = true |- _ => apply orb_true_iff in H; destruct H
         | H : _ || _ = false |- _ => apply orb_false_iff in H; destruct H
         | H : _ && _ = false |- _ => apply andb_false_iff in H; destruct H
         | H : (_ =? _) = true |- _ => apply N.eqb_eq in H
         | H : (_ =? _) = false |- _ => apply N.eqb_neq in H
         | H : (_ <=? _) = true |- _ => apply N.leb_le in H
         | H : (_ <=? _) = false |- _ => apply N.leb_gt in H
         end.

Module UUID.

Import Task Spec.

Lemma match_times_spec cls n s r :
  match_times cls n s = Some r <->
  exists p, s = p ++ r /\ length p = n /\ Forall (fun c => cls c = true) p.
Proof.
  revert s. induction n as [|n IH]; intros s; simpl.
  - split.
    + intros [= ->]. exists []. repeat split; constructor.
    + intros (p & -> & Hl & _). destruct p; [reflexivity | discriminate].
  - destruct s as [|c s].
    + split; [discriminate|]. intros (p & Hs & Hl & _).
      destruct p; simpl in *; discriminate.
    + destruct (cls c) eqn:Hc.
      * rewrite IH. split.
        -- intros (p & -> & Hl & Hp). exists (c :: p). simpl.
           repeat split; [congruence | constructor; assumption].
        -- intros (p & Hs & Hl & Hp). destruct p as [|c' p]; [discriminate|].
           simpl in *. injection Hs as <- ->. injection Hl as Hl.
           inversion Hp; subst. exists p. repeat split; assumption.
      * split; [discriminate|]. intros (p & Hs & Hl & Hp).
        destruct p as [|c' p]; [discriminate|]. simpl in Hs. injection Hs as <- ->.
        inversion Hp; subst. congruence.
Qed.

Lemma Forall2_replicate_app (cls : N -> bool) n rest (s : jsstring) :
  Forall2 (fun f c => f c = true) (replicate n cls ++ rest) s <->
  exists p r, s = p ++ r /\ length p = n /\ Forall (fun c => cls c = true) p
              /\ Forall2 (fun f c => f c = true) rest r.
Proof.
  revert s. induction n as [|n IH]; intros s; simpl.
  - split.
    + intros H. exists [], s. repeat split; [constructor | assumption].
    + intros (p & r & -> & Hl & _ & H). destruct p; [assumption | discriminate].
  - split.
    + intros H. inversion H as [|f c l k Hc Hrest]; subst.
      apply IH in Hrest as (p & r & -> & Hl & Hp & Hr).
      exists (c :: p), r. simpl. repeat split; [congruence | constructor; assumption | assumption].
    + intros (p & r & -> & Hl & Hp & Hr). destruct p as [|c p]; [discriminate|].
      simpl in *. injection Hl as Hl. inversion Hp; subst.
      constructor; [assumption|]. apply IH. exists p, r. repeat split; assumption.
Qed.

(** The matcher accepts a string exactly when each of its characters is in
    the class the pattern has at that position. *)
Lemma regex_test_pointwise re s :
  regex_test re s = true <-> Forall2 (fun f c => f c = true) (unfold_pieces re) s.
Proof.
  revert s. induction re as [|p re IH]; intros s; simpl.
  - destruct s; split; intros H; try constructor; try discriminate; inversion H.
  - unfold unfold_pieces. simpl. fold (unfold_pieces re).
    rewrite Forall2_replicate_app.
    destruct (match_times (ignore_case (accepts p)) (times p) s) as [r|] eqn:Hm.
    + apply match_times_spec in Hm as (q & -> & Hl & Hq). rewrite IH. split.
      * intros H. exists q, r. repeat split; assumption.
      * intros (q' & r' & Heq & Hl' & _ & H).
        assert (q = q' /\ r = r') as [-> ->]; [|assumption].
        apply app_inj_1; [congruence | assumption].
    + split; [discriminate|]. intros (q & r & -> & Hl & Hq & _).
      assert (match_times (ignore_case (accepts p)) (times p) (q ++ r) = Some r) as E.
      { apply match_times_spec. exists q. repeat split; assumption. }
      congruence.
Qed.

Lemma ignore_case_hex c : ignore_case hex_class c = is_hex_digit c.
Proof.
  unfold ignore_case, hex_class, is_hex_digit, upper, lower, in_range.
  apply eq_true_iff_eq.
  destruct (97 <=? c) eqn:?, (c <=? 122) eqn:?, (65 <=? c) eqn:?, (c <=? 90) eqn:?;
    simpl; rewrite ?orb_true_iff, ?andb_true_iff, ?N.leb_le; code_units; lia.
Qed.

Lemma ignore_case_variant c : ignore_case variant_class c = is_variant_digit c.
Proof.
  unfold ignore_case, variant_class, is_variant_digit, upper, lower, in_range.
  apply eq_true_iff_eq.
  destruct (97 <=? c) eqn:?, (c <=? 122) eqn:?, (65 <=? c) eqn:?, (c <=? 90) eqn:?;
    simpl; rewrite ?orb_true_iff, ?N.eqb_eq; code_units; lia.
Qed.

Lemma ignore_case_char x c :
  in_range 65 90 x = false -> in_range 97 122 x = false ->
  ignore_case (char_class x) c = (c =? x).
Proof.
  unfold ignore_case, char_class, upper, lower, in_range. intros Hu Hl.
  apply eq_true_iff_eq.
  destruct (97 <=? c) eqn:?, (c <=? 122) eqn:?, (65 <=? c) eqn:?, (c <=? 90) eqn:?;
    simpl; rewrite ?orb_true_iff, ?N.eqb_eq; code_units; lia.
Qed.

Lemma uuidRegex_position i f c :
  unfold_pieces uuidRegex !! i = Some f -> f c = position_ok i c.
Proof.
  intros H.
  do 36 (destruct i as [|i];
         [ injection H as <-; simpl;
           first [ apply ignore_case_hex | apply ignore_case_variant
                 | apply ignore_case_char; reflexivity ] | ]).
  discriminate.
Qed.

Lemma regex_test_uuid s : regex_test uuidRegex s = true <-> canonical_uuid_v4 s.
Proof.
  rewrite regex_test_pointwise, Forall2_same_length_lookup. unfold canonical_uuid_v4.
  change (length (unfold_pieces uuidRegex)) with 36%nat. split.
  - intros [Hl H]. split; [congruence|]. intros i c Hc.
    assert (i < 36)%nat as Hi by (rewrite Hl; eapply lookup_lt_Some; eassumption).
    destruct (lookup_lt_is_Some_2 (unfold_pieces uuidRegex) i Hi) as [f Hf].
    rewrite <- (uuidRegex_position i f c Hf). eapply H; eassumption.
  - intros [Hl H]. split; [congruence|]. intros i f c Hf Hc.
    rewrite (uuidRegex_position i f c Hf). apply H. assumption.
Qed.

End UUID.

(** ** Single values: titles, ids, tasks *)

Module Valid.

Import Task Spec UUID.


Ltac kinds_differ :=
  match goal with
  | H : @eq JsError _ _ |- _ => exfalso; revert H; vm_compute; discriminate
  | H : @eq (Completion _) (Throw _) (Throw _) |- _ =>
      exfalso; revert H; vm_compute; discriminate
  end.

Lemma object_shaped_cases v :
  object_shaped v <-> (exists l, v = JArr l) \/ (exists props, v = JObj props).
Proof.
  unfold object_shaped. split.
  - intros [Ht Hn]. destruct v; try (vm_compute in Ht; discriminate); try congruence; eauto.
  - intros [[l ->]|[props ->]]; split; try reflexivity; discriminate.
Qed.

Lemma not_object_shaped v :
  (v = JNull \/ typeof v <> lit "object") <-> ~ object_shaped v.
Proof.
  unfold object_shaped. split.
  - intros [->|H] [Ht Hn]; congruence.
  - intros H. destruct v;
      try (right; vm_compute; discriminate); try (left; reflexivity);
      exfalso; apply H; split; try reflexivity; discriminate.
Qed.

Lemma classic_object v : object_shaped v \/ ~ object_shaped v.
Proof.
  destruct v; try (right; intros [Ht Hn]; first [congruence | vm_compute in Ht; discriminate]);
    left; apply object_shaped_cases; eauto.
Qed.

Lemma validateTaskTitle_Return x t :
  validateTaskTitle x = Return t <->
  exists s, x = JStr s /\ t = trim s /\ (0 < length (trim s) <= 500)%nat.
Proof.
  unfold validateTaskTitle. destruct x as [| | | |s| |];
    try (split; [discriminate | intros (s' & [=] & _)]).
  destruct (Nat.eqb_spec (length (trim s)) 0) as [E|E].
  - split; [discriminate|]. intros (s' & [= <-] & _ & H). lia.
  - destruct (Nat.ltb_spec 500 (length (trim s))).
    + split; [discriminate|]. intros (s' & [= <-] & _ & H'). lia.
    + split.
      * intros [= <-]. exists s. repeat split; lia.
      * intros (s' & [= <-] & -> & _). reflexivity.
Qed.

Lemma validateTaskTitle_valid x :
  (exists t, validateTaskTitle x = Return t) <-> valid_title x.
Proof.
  unfold valid_title. split.
  - intros [t H]. apply validateTaskTitle_Return in H as (s & -> & _ & H). eauto.
  - intros (s & -> & H). exists (trim s). apply validateTaskTitle_Return. eauto.
Qed.

Lemma validateTaskTitle_Throw x e :
  validateTaskTitle x = Throw e -> title_failure e.
Proof.
  unfold validateTaskTitle, title_failure. destruct x as [| | | |s| |];
    try (intros [= <-]; auto).
  destruct (length (trim s) =? 0)%nat; [intros [= <-]; auto|].
  destruct (500 <? length (trim s))%nat; [intros [= <-]; auto | discriminate].
Qed.

Lemma isValidUUID_valid_id x : isValidUUID x = true <-> valid_id x.
Proof.
  unfold valid_id, isValidUUID. destruct x;
    try (split; [discriminate | intros (s' & [=] & _)]).
  rewrite regex_test_uuid. split.
  - intros H. eauto.
  - intros (s' & [= <-] & H). assumption.
Qed.

Lemma canonical_nonempty s : canonical_uuid_v4 s -> s <> [].
Proof. intros [Hl _] ->. discriminate. Qed.

Lemma typeof_string x : typeof x = lit "string" <-> exists s, x = JStr s.
Proof.
  split.
  - destruct x; try (intros H; vm_compute in H; discriminate). eauto.
  - intros [s ->]. reflexivity.
Qed.

Lemma typeof_boolean x : typeof x = lit "boolean" <-> is_boolean x.
Proof.
  unfold is_boolean. split.
  - destruct x; try (intros H; vm_compute in H; discriminate). eauto.
  - intros [s ->]. reflexivity.
Qed.

(** The checks of [validateTask] on an object or an array, in their
    order. *)
Lemma validateTask_object_shaped v :
  object_shaped v ->
  validateTask v =
    let id := field v (lit "id") in
    if negb (truthy id) || negb (str_eqb (typeof id) (lit "string"))
    then Throw MissingId
    else if negb (isValidUUID id) then Throw InvalidId
    else
      match validateTaskTitle (field v (lit "title")) with
      | Throw e => Throw e
      | Return _ =>
          if negb (str_eqb (typeof (field v (lit "completed"))) (lit "boolean"))
          then Throw InvalidCompletedFlag
          else Return (JBool true)
      end.
Proof.
  intros H. apply object_shaped_cases in H as [[l ->]|[props ->]]; reflexivity.
Qed.

Lemma validateTask_not_object v :
  ~ object_shaped v -> validateTask v = Throw NotAnObject.
Proof.
  intros H. destruct v; try reflexivity.
  - unfold validateTask. simpl. destruct b; reflexivity.
  - unfold validateTask. destruct (truthy (JNum x)); reflexivity.
  - unfold validateTask. destruct (truthy (JStr s)); reflexivity.
  - exfalso. apply H, object_shaped_cases. eauto.
  - exfalso. apply H, object_shaped_cases. eauto.
Qed.

(** The id check passes exactly for a non-empty string. *)
Lemma id_check x :
  negb (truthy x) || negb (str_eqb (typeof x) (lit "string")) = false <->
  exists s, x = JStr s /\ s <> [].
Proof.
  split.
  - intros H. apply orb_false_iff in H as [Ht Hs].
    apply negb_false_iff in Ht, Hs. apply str_eqb_eq, typeof_string in Hs as [s ->].
    exists s. split; [reflexivity|]. intros ->. discriminate.
  - intros (s & -> & Hs). destruct s; [congruence | reflexivity].
Qed.

(** What [validateTask] returns or throws, read off its checks. *)
Lemma validateTask_outcome v :
  let id := field v (lit "id") in
  let title := field v (lit "title") in
  let completed := field v (lit "completed") in
  (~ object_shaped v /\ validateTask v = Throw NotAnObject) \/
  (object_shaped v /\ ~ (exists s, id = JStr s /\ s <> []) /\
   validateTask v = Throw MissingId) \/
  (object_shaped v /\ (exists s, id = JStr s /\ s <> [] /\ ~ canonical_uuid_v4 s) /\
   validateTask v = Throw InvalidId) \/
  (object_shaped v /\ valid_id id /\
   exists e, validateTaskTitle title = Throw e /\ validateTask v = Throw e) \/
  (object_shaped v /\ valid_id id /\ valid_title title /\ ~ is_boolean completed /\
   validateTask v = Throw InvalidCompletedFlag) \/
  (object_shaped v /\ valid_id id /\ valid_title title /\ is_boolean completed /\
   validateTask v = Return (JBool true)).
Proof.
  intros id title completed.
  destruct (classic_object v) as [Ho|Hn].
  2: { left. split; [assumption | apply validateTask_not_object; assumption]. }
  right. rewrite (validateTask_object_shaped v Ho). cbv zeta.
  fold id title completed.
  destruct (negb (truthy id) || negb (str_eqb (typeof id) (lit "string"))) eqn:Hid.
  { left. split; [assumption|]. split; [|reflexivity].
    intros H. apply id_check in H. congruence. }
  right. apply id_check in Hid as (s & Hs & Hne).
  destruct (isValidUUID id) eqn:Hu; simpl.
  2: { left. split; [assumption|]. split; [|reflexivity].
       exists s. split; [assumption|]. split; [assumption|].
       intros Hc. assert (valid_id id) as Hv by (exists s; auto).
       apply isValidUUID_valid_id in Hv. congruence. }
  right. apply isValidUUID_valid_id in Hu.
  destruct (validateTaskTitle title) as [t|e] eqn:Ht.
  2: { left. split; [assumption|]. split; [assumption|]. exists e. auto. }
  right. assert (valid_title title) as Hvt by (apply validateTaskTitle_valid; eauto).
  destruct (str_eqb (typeof completed) (lit "boolean")) eqn:Hb; simpl.
  - right. apply str_eqb_eq, typeof_boolean in Hb. auto 10.
  - left. split; [assumption|]. split; [assumption|]. split; [assumption|].
    split; [|reflexivity]. intros Hc. apply typeof_boolean, str_eqb_eq in Hc.
    congruence.
Qed.

End Valid.

(** ** The claims about single values *)

Module ValueClaims.

Import Task Spec UUID Valid.

Lemma valid_id_shape x : valid_id x -> exists s, x = JStr s /\ s <> [].
Proof. intros (s & -> & H). exists s. split; [reflexivity | apply canonical_nonempty, H]. Qed.

Lemma valid_id_not_canonical x s : valid_id x -> x = JStr s -> ~ canonical_uuid_v4 s -> False.
Proof. intros (s' & -> & H) [= ->] Hn. auto. Qed.

Lemma valid_title_Throw x e : valid_title x -> validateTaskTitle x = Throw e -> False.
Proof. intros H E. apply validateTaskTitle_valid in H as [t H]. congruence. Qed.

Ltac clash :=
  exfalso;
  repeat match goal with
         | H : _ /\ _ |- _ => destruct H
         end;
  try match goal with
      | H : valid_id ?x, N : ~ (exists s, ?x = JStr s /\ s <> []) |- _ =>
          apply N, valid_id_shape, H
      | N : ~ (exists s, ?x = JStr s /\ s <> []),
        H : exists s, ?x = JStr s /\ s <> [] /\ _ |- _ =>
          apply N; destruct H as (s & ? & ? & ?); eauto
      | H : valid_id ?x,
        N : exists s, ?x = JStr s /\ s <> [] /\ ~ canonical_uuid_v4 s |- _ =>
          destruct N as (s & ? & ? & ?); eapply valid_id_not_canonical; eassumption
      | H : valid_title ?x, T : validateTaskTitle ?x = Throw _ |- _ =>
          eapply valid_title_Throw; eassumption
      end;
  try tauto.

(** C4, as amended.  [validateTask] makes its checks in order and the first
    that fails decides the failure: NotAnObject iff the candidate is null or
    not object-shaped; MissingId iff it is object-shaped and its id is not a
    non-empty string; InvalidId iff the id is a non-empty string that is not
    UUID-v4-shaped; a title failure iff the id is valid and the title check
    fails with it; InvalidCompletedFlag iff id and title are valid and
    [completed] is not a boolean; success iff all checks pass. *)
Theorem validateTask_kinds (v : JsVal) :
  let id := field v (lit "id") in
  let title := field v (lit "title") in
  let completed := field v (lit "completed") in
  (validateTask v = Throw NotAnObject <-> v = JNull \/ typeof v <> lit "object") /\
  (validateTask v = Throw MissingId <->
     object_shaped v /\ ~ (exists s, id = JStr s /\ s <> [])) /\
  (validateTask v = Throw InvalidId <->
     object_shaped v /\ exists s, id = JStr s /\ s <> [] /\ ~ canonical_uuid_v4 s) /\
  (forall e, title_failure e ->
     (validateTask v = Throw e <->
        object_shaped v /\ valid_id id /\ validateTaskTitle title = Throw e)) /\
  (validateTask v = Throw InvalidCompletedFlag <->
     object_shaped v /\ valid_id id /\ valid_title title /\ ~ is_boolean completed) /\
  (validateTask v = Return (JBool true) <->
     object_shaped v /\ valid_id id /\ valid_title title /\ is_boolean completed).
Proof.
  cbv zeta. rewrite not_object_shaped.
  pose proof (validateTask_outcome v) as O. cbv zeta in O.
  destruct O as
    [[Hn E]|[(Ho & Hi & E)|[(Ho & Hi & E)|[(Ho & Hi & e0 & Ht & E)|[(Ho & Hi & Ht & Hc & E)|(Ho & Hi & Ht & Hc & E)]]]]];
    rewrite E.
  all: repeat match goal with |- _ /\ _ => split end.
  all: try (intros e He; destruct He as [->|[->| ->]]).
  all: split; intros H.
  all: try kinds_differ.
  all: try discriminate.
  all: try tauto.
  all: try solve [clash].
  all: try solve [injection H as ->; auto].
  all: try solve [destruct H as (_ & _ & H); congruence].
  all: try solve [injection H as ->; apply validateTaskTitle_Throw in Ht;
                  destruct Ht as [?|[?|?]]; kinds_differ].
Qed.



Lemma sample_id_valid : valid_id (JStr sample_id).
Proof. apply isValidUUID_valid_id. vm_compute. reflexivity. Defined.


Lemma validateTask_kinds_witness :
  validateTask (task_with (JStr sample_id) (JStr []) (JBool false)) = Throw EmptyTitle.
Proof.
  apply (proj1 (proj2 (proj2 (proj2
           (validateTask_kinds (task_with (JStr sample_id) (JStr []) (JBool false))))))
           EmptyTitle).
  - right. left. reflexivity.
  - split; [|split].
    + split; [reflexivity | discriminate].
    + exact sample_id_valid.
    + reflexivity.
Defined.


(** C4, counterexample.  A task with a malformed id and a non-boolean
    [completed] fails with InvalidId, not InvalidCompletedFlag; a task whose
    id is the empty string fails with MissingId, not InvalidId. *)
Lemma validateTask_as_claimed_fails :
  ~ validateTask_as_claimed
      (task_with (JStr (lit "invalid-uuid")) (JStr (lit "Valid task")) (JStr (lit "true")))
  /\ ~ validateTask_as_claimed
      (task_with (JStr []) (JStr (lit "Valid task")) (JBool false)).
Proof.
  split.
  - intros (_ & _ & _ & H & _).
    assert (validateTask (task_with (JStr (lit "invalid-uuid")) (JStr (lit "Valid task"))
                                    (JStr (lit "true"))) = Throw InvalidCompletedFlag) as E.
    { apply H. intros [b Hb]. discriminate. }
    vm_compute in E. discriminate.
  - intros (_ & _ & H & _).
    assert (validateTask (task_with (JStr []) (JStr (lit "Valid task")) (JBool false))
            = Throw InvalidId) as E.
    { apply H. exists []. split; [reflexivity|]. intros [Hl _]. discriminate. }
    vm_compute in E. discriminate.
Qed.

(** C6.  A title whose trimmed form is longer than 500 fails with
    TitleTooLong; one whose trimmed form has length exactly 500 is accepted
    and its trimmed form returned; one whose trimmed form is empty fails
    with EmptyTitle. *)
Theorem validateTaskTitle_boundary (s : jsstring) :
  ((500 < length (trim s))%nat -> validateTaskTitle (JStr s) = Throw TitleTooLong) /\
  (length (trim s) = 500%nat -> validateTaskTitle (JStr s) = Return (trim s)) /\
  (length (trim s) = 0%nat -> validateTaskTitle (JStr s) = Throw EmptyTitle).
Proof.
  unfold validateTaskTitle. repeat split; intros H.
  - destruct (Nat.eqb_spec (length (trim s)) 0); [lia|].
    destruct (Nat.ltb_spec 500 (length (trim s))); [reflexivity | lia].
  - rewrite H. reflexivity.
  - rewrite H. reflexivity.
Qed.

Lemma validateTaskTitle_boundary_witness :
  validateTaskTitle (JStr (32 :: repeat 97 501)) = Throw TitleTooLong
  /\ validateTaskTitle (JStr (repeat 97 500 ++ [32])) = Return (repeat 97 500)
  /\ validateTaskTitle (JStr [32; 9; 10]) = Throw EmptyTitle.
Proof.
  split; [|split].
  - apply (proj1 (validateTaskTitle_boundary (32 :: repeat 97 501))).
    vm_compute. lia.
  - apply (proj1 (proj2 (validateTaskTitle_boundary (repeat 97 500 ++ [32])))).
    vm_compute. reflexivity.
  - apply (proj2 (proj2 (validateTaskTitle_boundary [32; 9; 10]))).
    vm_compute. reflexivity.
Defined.

(** C7.  [isValidUUID] returns true exactly on the strings of the canonical
    8-4-4-4-12 pattern of hexadecimal digits of either case, with version
    digit 4 and variant digit among 8, 9, a, b; on every other value, string
    or not, it returns false.  It is a total function: it never throws. *)
Theorem isValidUUID_canonical (v : JsVal) :
  (isValidUUID v = true <-> exists s, v = JStr s /\ canonical_uuid_v4 s) /\
  ((forall s, v <> JStr s) -> isValidUUID v = false) /\
  (forall s, v = JStr s -> ~ canonical_uuid_v4 s -> isValidUUID v = false).
Proof.
  split; [apply isValidUUID_valid_id|]. split.
  - intros H. destruct v; try reflexivity. exfalso. eapply H. reflexivity.
  - intros s -> H. apply not_true_is_false. intros E.
    apply isValidUUID_valid_id in E as (s' & [= <-] & Hc). auto.
Qed.

Lemma isValidUUID_canonical_witness :
  isValidUUID JUndefined = false /\ isValidUUID (JStr (lit "invalid-uuid")) = false.
Proof.
  split.
  - apply (proj1 (proj2 (isValidUUID_canonical JUndefined))). intros s. discriminate.
  - apply (proj2 (proj2 (isValidUUID_canonical (JStr (lit "invalid-uuid"))))
             (lit "invalid-uuid") eq_refl).
    intros [Hl _]. vm_compute in Hl. discriminate.
Defined.

End ValueClaims.

(** ** Collections and filters *)

Module Collections.

Import Task Spec UUID Valid.

Lemma validateTask_Return v r :
  validateTask v = Return r <-> r = JBool true /\ valid_task v.
Proof.
  pose proof (validateTask_outcome v) as O. cbv zeta in O. unfold valid_task.
  destruct O as
    [[Hn E]|[(Ho & Hi & E)|[(Ho & Hi & E)|[(Ho & Hi & e0 & Ht & E)
      |[(Ho & Hi & Ht & Hc & E)|(Ho & Hi & Ht & Hc & E)]]]]]; rewrite E.
  all: split; [intros H; try discriminate | intros (Hr & H1 & H2 & H3 & H4)].
  all: try solve [exfalso; tauto].
  - exfalso. apply Hi. destruct H2 as (s & -> & Hc). exists s. split; [reflexivity|].
    apply canonical_nonempty, Hc.
  - exfalso. destruct Hi as (s & Hs & _ & Hn). destruct H2 as (s' & Hs' & Hc).
    rewrite Hs in Hs'. injection Hs' as <-. auto.
  - exfalso. apply validateTaskTitle_valid in H3 as [t H3]. congruence.
  - injection H as <-. auto.
  - subst. reflexivity.
Qed.

Lemma validateTask_valid v : validateTask v = Return (JBool true) <-> valid_task v.
Proof. rewrite validateTask_Return. tauto. Qed.

Lemma validateTask_decide v :
  valid_task v \/ exists e, validateTask v = Throw e /\ ~ valid_task v.
Proof.
  destruct (validateTask v) as [r|e] eqn:E.
  - left. apply validateTask_Return in E. tauto.
  - right. exists e. split; [reflexivity|]. intros H. apply validateTask_valid in H. congruence.
Qed.

(** The loop of [validateTasksArray] succeeds exactly on well-formed
    elements. *)
Lemma forEach_validate_Return i l :
  forEach_validate i l = Return tt <-> Forall valid_task l.
Proof.
  revert i. induction l as [|t l IH]; intros i; simpl.
  - split; [constructor | reflexivity].
  - destruct (validateTask_decide t) as [Hv|(e & E & Hn)].
    + pose proof Hv as Hv'. apply validateTask_valid in Hv'. rewrite Hv'. simpl.
      rewrite IH. split; [constructor; assumption | inversion 1; assumption].
    + rewrite E. simpl. split; [discriminate | inversion 1; contradiction].
Qed.

Lemma validateTasksArray_Return v r :
  validateTasksArray v = Return r <-> r = JBool true /\ valid_tasks v.
Proof.
  unfold valid_tasks. destruct v as [| | | | |l|];
    try (simpl; split; [discriminate | intros (_ & l' & [=] & _)]).
  simpl. destruct (forEach_validate 0 l) as [[]|e] eqn:E; simpl.
  - apply forEach_validate_Return in E. split.
    + intros [= <-]. eauto.
    + intros [-> _]. reflexivity.
  - split; [discriminate|]. intros (_ & l' & [= <-] & H).
    apply (forEach_validate_Return 0) in H. congruence.
Qed.

Lemma validateTasksArray_valid v :
  validateTasksArray v = Return (JBool true) <-> valid_tasks v.
Proof. rewrite validateTasksArray_Return. tauto. Qed.

Lemma validateTasksArray_decide v :
  (validateTasksArray v = Return (JBool true) /\ valid_tasks v) \/
  (exists e, validateTasksArray v = Throw e /\ ~ valid_tasks v).
Proof.
  destruct (validateTasksArray v) as [r|e] eqn:E.
  - left. apply validateTasksArray_Return in E as [-> H]. auto.
  - right. exists e. split; [reflexivity|]. intros H.
    apply validateTasksArray_valid in H. congruence.
Qed.

Lemma includes_validFilters v : includes validFilters v = true <-> valid_filter v.
Proof.
  unfold valid_filter, includes, validFilters, validFilterNames. simpl.
  rewrite !orb_true_iff. destruct v; simpl.
  5: { rewrite !str_eqb_eq. split.
       - intros [H|[H|[H|H]]]; try discriminate; subst; auto.
       - intros [[= <-]|[[= <-]|[= <-]]]; auto. }
  all: split; [intros [H|[H|[H|H]]]; discriminate | intros [H|[H|H]]; discriminate].
Qed.

Lemma validateFilter_valid v : validateFilter v = Return (JBool true) <-> valid_filter v.
Proof.
  unfold validateFilter. rewrite <- includes_validFilters.
  destruct (includes validFilters v); simpl; split; congruence.
Qed.

Lemma validateFilter_invalid v : validateFilter v = Throw InvalidFilter <-> ~ valid_filter v.
Proof.
  unfold validateFilter. rewrite <- includes_validFilters.
  destruct (includes validFilters v); simpl; split; try congruence; try discriminate; auto.
Qed.

Lemma valid_filter_decide v : valid_filter v \/ ~ valid_filter v.
Proof.
  rewrite <- includes_validFilters. destruct (includes validFilters v); auto.
Qed.

(** A well-formed task is an object that owns the three fields. *)
Lemma valid_task_props v :
  valid_task v ->
  exists props id title b,
    v = JObj props /\ assoc (lit "id") props = Some (JStr id) /\ canonical_uuid_v4 id
    /\ assoc (lit "title") props = Some (JStr title)
    /\ (0 < length (trim title) <= 500)%nat
    /\ assoc (lit "completed") props = Some (JBool b).
Proof.
  intros (Ho & (id & Hid & Hc) & (title & Ht & Hl) & (b & Hb)).
  apply object_shaped_cases in Ho as [[l ->]|[props ->]]; [discriminate|].
  unfold field in *. simpl in *.
  destruct (assoc (lit "id") props) as [x|] eqn:E1; [|discriminate].
  destruct (assoc (lit "title") props) as [y|] eqn:E2; [|discriminate].
  destruct (assoc (lit "completed") props) as [z|] eqn:E3; [|discriminate].
  simpl in *. subst. exists props, id, title, b. auto 10.
Qed.

Lemma assoc_set_prop_eq k v props : assoc k (set_prop k v props) = Some v.
Proof.
  induction props as [|[k' v'] props IH]; simpl.
  - rewrite str_eqb_refl. reflexivity.
  - destruct (str_eqb k' k) eqn:E; simpl; rewrite E; [reflexivity | assumption].
Qed.

Lemma assoc_set_prop_ne k k' v props :
  k <> k' -> assoc k' (set_prop k v props) = assoc k' props.
Proof.
  intros Hne. induction props as [|[k0 v0] props IH]; simpl.
  - destruct (str_eqb k k') eqn:E; [apply str_eqb_eq in E; contradiction | reflexivity].
  - destruct (str_eqb k0 k) eqn:E; simpl.
    + apply str_eqb_eq in E. subst k0.
      destruct (str_eqb k k') eqn:E'; [apply str_eqb_eq in E'; contradiction | reflexivity].
    + destruct (str_eqb k0 k'); [reflexivity | assumption].
Qed.

Lemma set_prop_set_prop k v v' props :
  set_prop k v' (set_prop k v props) = set_prop k v' props.
Proof.
  induction props as [|[k0 v0] props IH]; simpl.
  - rewrite str_eqb_refl. reflexivity.
  - destruct (str_eqb k0 k) eqn:E; simpl; rewrite E; [reflexivity | f_equal; assumption].
Qed.

Lemma set_prop_same k v props : assoc k props = Some v -> set_prop k v props = props.
Proof.
  induction props as [|[k0 v0] props IH]; simpl; [discriminate|].
  destruct (str_eqb k0 k) eqn:E.
  - intros [= ->]. reflexivity.
  - intros H. f_equal. auto.
Qed.

Lemma flipped_valid t : valid_task t -> valid_task (flipped t).
Proof.
  intros H. destruct (valid_task_props t H) as (props & id & title & b & -> & Hi & Hc & Ht & Hl & Hb).
  unfold flipped, field. simpl. rewrite Hb. simpl.
  assert (lit "completed" <> lit "id") as N1 by (vm_compute; discriminate).
  assert (lit "completed" <> lit "title") as N2 by (vm_compute; discriminate).
  split; [split; [reflexivity | discriminate]|].
  unfold field. simpl.
  rewrite (assoc_set_prop_ne _ _ _ _ N1), (assoc_set_prop_ne _ _ _ _ N2),
    assoc_set_prop_eq, Hi, Ht. simpl.
  split; [exists id; auto|]. split; [exists title; auto | exists (negb b); reflexivity].
Qed.

Lemma flipped_flipped t : valid_task t -> flipped (flipped t) = t.
Proof.
  intros H. destruct (valid_task_props t H) as (props & id & title & b & -> & Hi & Hc & Ht & Hl & Hb).
  unfold flipped at 2. unfold field. simpl. rewrite Hb. simpl.
  unfold flipped, field. simpl. rewrite assoc_set_prop_eq. simpl.
  rewrite set_prop_set_prop, negb_involutive. f_equal. apply set_prop_same, Hb.
Qed.

Lemma flipped_id t : valid_task t -> field (flipped t) (lit "id") = field t (lit "id").
Proof.
  intros H. destruct (valid_task_props t H) as (props & id & title & b & -> & Hi & Hc & Ht & Hl & Hb).
  unfold flipped, field. simpl. rewrite Hb. simpl.
  rewrite assoc_set_prop_ne; [reflexivity | vm_compute; discriminate].
Qed.

(** What flipping changes: the flag becomes its negation, every other
    property reads as before. *)
Lemma flipped_fields t :
  valid_task t ->
  exists b,
    field t (lit "completed") = JBool b /\
    field (flipped t) (lit "completed") = JBool (negb b) /\
    forall k, k <> lit "completed" -> field (flipped t) k = field t k.
Proof.
  intros H. destruct (valid_task_props t H) as (props & id & title & b & -> & Hi & Hc & Ht & Hl & Hb).
  exists b. unfold flipped, field. simpl. rewrite Hb. simpl.
  split; [reflexivity|]. split.
  - rewrite assoc_set_prop_eq. reflexivity.
  - intros k Hk. rewrite assoc_set_prop_ne by congruence. reflexivity.
Qed.

Lemma flipped_completed t b :
  completed_is b t = true -> valid_task t -> completed_is (negb b) (flipped t) = true.
Proof.
  intros Hb H. destruct (valid_task_props t H) as (props & id & title & b' & -> & Hi & Hc & Ht & Hl & Hb').
  unfold completed_is, flipped, field in *. simpl in *. rewrite Hb' in *. simpl in *.
  rewrite assoc_set_prop_eq. simpl. apply eqb_prop in Hb. subst. apply eqb_reflx.
Qed.

End Collections.

(** ** The operations of the store *)

Module Store.

Import Task useLocalStorage TaskContext Spec UUID Valid Collections.

Lemma field_valid_task t k :
  valid_task t -> get_prop t k = Return (field t k).
Proof.
  intros H. destruct (valid_task_props t H) as (props & ? & ? & ? & -> & _). reflexivity.
Qed.

Lemma completed_valid_task t :
  valid_task t -> exists b, field t (lit "completed") = JBool b.
Proof. intros (_ & _ & _ & H). exact H. Qed.

Lemma toggle_task_valid id t :
  valid_task t -> toggle_task id t = Return (if has_id id t then flipped t else t).
Proof.
  intros H. unfold toggle_task, has_id, flipped.
  rewrite !(field_valid_task t _ H). simpl.
  destruct (completed_valid_task t H) as [b Hb]. rewrite Hb.
  destruct (strict_equals (field t (lit "id")) id); reflexivity.
Qed.

Lemma map_elems_toggle id l :
  Forall valid_task l -> map_elems (toggle_task id) l = Return (toggled id l).
Proof.
  induction 1 as [|t l Ht Hl IH]; simpl; [reflexivity|].
  rewrite (toggle_task_valid id t Ht). simpl. rewrite IH. reflexivity.
Qed.

Lemma other_task_valid id t :
  valid_task t -> other_task id t = Return (JBool (negb (has_id id t))).
Proof.
  intros H. unfold other_task, has_id. rewrite (field_valid_task t _ H). reflexivity.
Qed.

Lemma filter_elems_other id l :
  Forall valid_task l -> filter_elems (other_task id) l = Return (without id l).
Proof.
  induction 1 as [|t l Ht Hl IH]; simpl; [reflexivity|].
  rewrite (other_task_valid id t Ht). simpl. rewrite IH. simpl.
  destruct (has_id id t); reflexivity.
Qed.

Lemma filter_elems_completed l :
  Forall valid_task l -> filter_elems is_completed l = Return (with_completed true l).
Proof.
  induction 1 as [|t l Ht Hl IH]; simpl; [reflexivity|].
  unfold is_completed at 1. rewrite (field_valid_task t _ Ht). simpl. rewrite IH. simpl.
  unfold completed_is. destruct (completed_valid_task t Ht) as [b ->].
  destruct b; reflexivity.
Qed.

Lemma filter_elems_pending l :
  Forall valid_task l -> filter_elems is_pending l = Return (with_completed false l).
Proof.
  induction 1 as [|t l Ht Hl IH]; simpl; [reflexivity|].
  unfold is_pending at 1. rewrite (field_valid_task t _ Ht). simpl. rewrite IH. simpl.
  unfold completed_is. destruct (completed_valid_task t Ht) as [b ->].
  destruct b; reflexivity.
Qed.

Lemma toggled_valid id l : Forall valid_task l -> Forall valid_task (toggled id l).
Proof.
  unfold toggled. induction 1 as [|t l Ht Hl IH]; simpl; constructor; try assumption.
  destruct (has_id id t); [apply flipped_valid|]; assumption.
Qed.

Lemma has_id_flipped id t : valid_task t -> has_id id (flipped t) = has_id id t.
Proof. intros H. unfold has_id. rewrite (flipped_id t H). reflexivity. Qed.

Lemma toggled_toggled id l : Forall valid_task l -> toggled id (toggled id l) = l.
Proof.
  unfold toggled. induction 1 as [|t l Ht Hl IH]; simpl; [reflexivity|].
  rewrite IH. f_equal. destruct (has_id id t) eqn:E.
  - rewrite (has_id_flipped id t Ht), E. apply flipped_flipped, Ht.
  - rewrite E. reflexivity.
Qed.

Lemma toggled_no_match id l :
  Forall (fun t => has_id id t = false) l -> toggled id l = l.
Proof.
  unfold toggled. induction 1 as [|t l Ht Hl IH]; simpl; [reflexivity|].
  rewrite Ht, IH. reflexivity.
Qed.

Lemma without_valid id l : Forall valid_task l -> Forall valid_task (without id l).
Proof.
  unfold without. induction 1 as [|t l Ht Hl IH]; simpl; [constructor|].
  destruct (negb (has_id id t)); [constructor|]; assumption.
Qed.

(** *** What a write and a setter change *)

Lemma write_Return k v w : fst (write k v w) = Return tt.
Proof. unfold write. destruct (setItem_raises (localStorage w)); reflexivity. Qed.

Lemma write_tasks k v w : tasks (snd (write k v w)) = tasks w.
Proof. unfold write. destruct (setItem_raises (localStorage w)); reflexivity. Qed.

Lemma write_filter k v w : filter (snd (write k v w)) = filter w.
Proof. unfold write. destruct (setItem_raises (localStorage w)); reflexivity. Qed.

Lemma write_random k v w :
  random (snd (write k v w)) = random w /\
  random_calls (snd (write k v w)) = random_calls w /\
  crypto (snd (write k v w)) = crypto w /\
  uuid_calls (snd (write k v w)) = uuid_calls w.
Proof. unfold write. destruct (setItem_raises (localStorage w)); auto. Qed.

Lemma write_flags k v w :
  setItem_raises (localStorage (snd (write k v w))) = setItem_raises (localStorage w) /\
  getItem_raises (localStorage (snd (write k v w))) = getItem_raises (localStorage w).
Proof. unfold write. destruct (setItem_raises (localStorage w)) eqn:E; auto. Qed.

Lemma write_persisted_eq k v w :
  setItem_raises (localStorage w) = false ->
  persisted k (snd (write k v w)) = Some (Json v).
Proof.
  intros H. unfold write, persisted. rewrite H. simpl. apply lookup_insert_eq.
Qed.

Lemma write_persisted_ne k k' v w :
  k <> k' -> persisted k' (snd (write k v w)) = persisted k' w.
Proof.
  intros H. unfold write, persisted. destruct (setItem_raises (localStorage w)); simpl.
  - reflexivity.
  - apply lookup_insert_ne, H.
Qed.

Lemma write_raises k v w :
  setItem_raises (localStorage w) = true ->
  localStorage (snd (write k v w)) = localStorage w.
Proof. intros H. unfold write. rewrite H. reflexivity. Qed.

Lemma setTasks_Return f v w :
  f (tasks w) = Return v ->
  setTasks (Updater f) w = write (lit "tasks") v (with_tasks v w).
Proof. intros H. unfold setTasks. simpl. rewrite H. reflexivity. Qed.

Lemma setTasks_Throw f e w :
  f (tasks w) = Throw e -> setTasks (Updater f) w = (Throw e, w).
Proof. intros H. unfold setTasks. simpl. rewrite H. reflexivity. Qed.

Lemma tasks_ne_filter : lit "tasks" <> lit "filter".
Proof. vm_compute. discriminate. Qed.

Lemma filter_ne_tasks : lit "filter" <> lit "tasks".
Proof. vm_compute. discriminate. Qed.

(** A setter of the tasks leaves the filter and its entry alone, whatever
    its argument does. *)
Lemma setTasks_frame arg w :
  filter (snd (setTasks arg w)) = filter w /\
  persisted (lit "filter") (snd (setTasks arg w)) = persisted (lit "filter") w.
Proof.
  unfold setTasks. destruct (next_value arg (tasks w)) as [v|e]; simpl; [|auto].
  rewrite write_filter, (write_persisted_ne _ _ _ _ tasks_ne_filter). auto.
Qed.

Lemma setFilterState_frame arg w :
  tasks (snd (setFilterState arg w)) = tasks w /\
  persisted (lit "tasks") (snd (setFilterState arg w)) = persisted (lit "tasks") w.
Proof.
  unfold setFilterState. destruct (next_value arg (filter w)) as [v|e]; simpl; [|auto].
  rewrite write_tasks, (write_persisted_ne _ _ _ _ filter_ne_tasks). auto.
Qed.

(** *** The operations on a well-formed collection *)

Lemma toggleTaskCompletion_valid id l w :
  tasks w = JArr l -> Forall valid_task l ->
  toggleTaskCompletion id w =
    write (lit "tasks") (JArr (toggled id l)) (with_tasks (JArr (toggled id l)) w).
Proof.
  intros Hw Hl. unfold toggleTaskCompletion. apply setTasks_Return.
  rewrite Hw. simpl. rewrite (map_elems_toggle id l Hl). reflexivity.
Qed.

Lemma deleteTask_valid id l w :
  tasks w = JArr l -> Forall valid_task l ->
  deleteTask id w =
    write (lit "tasks") (JArr (without id l)) (with_tasks (JArr (without id l)) w).
Proof.
  intros Hw Hl. unfold deleteTask. apply setTasks_Return.
  rewrite Hw. simpl. rewrite (filter_elems_other id l Hl). reflexivity.
Qed.

End Store.

(** ** The claims about the store *)

Module StoreClaims.

Import Task useLocalStorage TaskContext Spec UUID Valid Collections Store.

Lemma same_store_refl w : same_store w w.
Proof. unfold same_store. auto 10. Qed.

Lemma same_store_trans w1 w2 w3 : same_store w1 w2 -> same_store w2 w3 -> same_store w1 w3.
Proof. unfold same_store. intros (?&?&?&?&?&?) (?&?&?&?&?&?). repeat split; congruence. Qed.

Lemma replacer_same_store c w : same_store w (snd (replacer c w)).
Proof. unfold same_store. simpl. auto 10. Qed.

Lemma replace_xy_same_store t w : same_store w (snd (replace_xy t w)).
Proof.
  revert w. induction t as [|c t IH]; intros w; simpl; [apply same_store_refl|].
  unfold bind.
  destruct ((c =? 120) || (c =? 121)).
  - pose proof (replacer_same_store c w) as H1.
    destruct (replacer c w) as [[piece|e] w1]; simpl in *; [|assumption].
    pose proof (IH w1) as H2. destruct (replace_xy t w1) as [[tl|e] w2]; simpl in *;
      eapply same_store_trans; eassumption.
  - simpl. pose proof (IH w) as H2. destruct (replace_xy t w) as [[tl|e] w2]; simpl in *;
      assumption.
Qed.

Lemma generateTaskId_same_store w : same_store w (snd (generateTaskId w)).
Proof.
  unfold generateTaskId. destruct (crypto w) as [[[source|]]|].
  - unfold same_store. simpl. auto 10.
  - apply replace_xy_same_store.
  - apply replace_xy_same_store.
Qed.

Lemma createTask_same_store title w : same_store w (snd (createTask title w)).
Proof.
  unfold createTask, bind, pure. destruct (validateTaskTitle title) as [t|e]; simpl.
  - pose proof (generateTaskId_same_store w) as H.
    destruct (generateTaskId w) as [[id|e] w1]; simpl in *; assumption.
  - apply same_store_refl.
Qed.

Lemma setFilter_valid newFilter w :
  valid_filter newFilter ->
  setFilter newFilter w = write (lit "filter") newFilter (with_filter newFilter w).
Proof.
  intros H. apply validateFilter_valid in H.
  unfold setFilter, try_catch_eff, bind, pure. rewrite H.
  unfold setFilterState. simpl.
  pose proof (write_Return (lit "filter") newFilter (with_filter newFilter w)) as R.
  destruct (write (lit "filter") newFilter (with_filter newFilter w)) as [[[]|e] w1];
    simpl in *; [reflexivity | discriminate].
Qed.

Lemma setFilter_invalid newFilter w :
  ~ valid_filter newFilter ->
  setFilter newFilter w =
    (Throw InvalidFilter,
     with_console ({| level := Err; text := lit "Invalid filter:"; payload := InvalidFilter |}
                     :: console w) w).
Proof.
  intros H. apply validateFilter_invalid in H.
  unfold setFilter, try_catch_eff, bind, pure. rewrite H. reflexivity.
Qed.

(** C3.  [setFilter] succeeds exactly on the three filter names.  On
    success the filter in memory is the new one (and so is its persisted
    entry, when the store accepts writes); on failure the validation error
    reaches the caller and the filter, in memory and persisted, is what it
    was.  The tasks, in memory and persisted, are untouched in both cases. *)
Theorem setFilter_atomic (newFilter : JsVal) (w : World) :
  (fst (setFilter newFilter w) = Return tt <-> valid_filter newFilter) /\
  (valid_filter newFilter ->
     filter (snd (setFilter newFilter w)) = newFilter /\
     (setItem_raises (localStorage w) = false ->
        persisted (lit "filter") (snd (setFilter newFilter w)) = Some (Json newFilter))) /\
  (~ valid_filter newFilter ->
     fst (setFilter newFilter w) = Throw InvalidFilter /\
     filter (snd (setFilter newFilter w)) = filter w /\
     persisted (lit "filter") (snd (setFilter newFilter w)) = persisted (lit "filter") w) /\
  tasks (snd (setFilter newFilter w)) = tasks w /\
  persisted (lit "tasks") (snd (setFilter newFilter w)) = persisted (lit "tasks") w.
Proof.
  destruct (valid_filter_decide newFilter) as [Hv|Hn].
  - rewrite (setFilter_valid newFilter w Hv).
    rewrite write_Return, write_filter, write_tasks,
      (write_persisted_ne _ _ _ _ filter_ne_tasks).
    split; [tauto|]. split; [|split; [tauto | auto]].
    intros _. split; [reflexivity|]. intros Hs. apply write_persisted_eq. exact Hs.
  - rewrite (setFilter_invalid newFilter w Hn). simpl.
    split; [split; [discriminate | tauto]|]. split; [tauto|]. auto.
Qed.

Lemma setFilter_atomic_witness :
  filter (snd (setFilter (JStr (lit "completed"))
                 (mount {| items := ∅; getItem_raises := false; setItem_raises := false |}
                        None (fun _ => 0%Q))))
  = JStr (lit "completed")
  /\ fst (setFilter (JStr (lit "bogus"))
            (mount {| items := ∅; getItem_raises := false; setItem_raises := false |}
                   None (fun _ => 0%Q)))
     = Throw InvalidFilter.
Proof.
  split.
  - apply (proj1 (proj2 (setFilter_atomic (JStr (lit "completed")) _))).
    right. left. reflexivity.
  - apply (proj1 (proj2 (proj2 (setFilter_atomic (JStr (lit "bogus")) _)))).
    intros [H|[H|H]]; vm_compute in H; discriminate.
Defined.

Lemma addTask_frame title w :
  filter (snd (addTask title w)) = filter w /\
  persisted (lit "filter") (snd (addTask title w)) = persisted (lit "filter") w.
Proof.
  unfold addTask, try_catch_eff, bind, throw.
  pose proof (createTask_same_store title w) as (_ & Hf & Hl & _).
  destruct (createTask title w) as [[newTask|e] w1]; simpl in *.
  - pose proof (setTasks_frame (Updater (append_task newTask)) w1) as [H1 H2].
    unfold persisted in *.
    destruct (setTasks (Updater (append_task newTask)) w1) as [[[]|e] w2]; simpl in *;
      rewrite H1, H2, Hf, Hl; auto.
  - unfold persisted. rewrite Hf, Hl. auto.
Qed.

(** C9.  A successful [setFilter] leaves the task collection, in memory and
    persisted, as it was; [addTask], [toggleTaskCompletion] and [deleteTask]
    leave the filter, in memory and persisted, as it was, whatever their
    argument and whether or not they complete normally. *)
Theorem operations_frame (w : World) :
  (forall newFilter,
     fst (setFilter newFilter w) = Return tt ->
     filter (snd (setFilter newFilter w)) = newFilter /\
     tasks (snd (setFilter newFilter w)) = tasks w /\
     persisted (lit "tasks") (snd (setFilter newFilter w)) = persisted (lit "tasks") w) /\
  (forall title,
     filter (snd (addTask title w)) = filter w /\
     persisted (lit "filter") (snd (addTask title w)) = persisted (lit "filter") w) /\
  (forall id,
     filter (snd (toggleTaskCompletion id w)) = filter w /\
     persisted (lit "filter") (snd (toggleTaskCompletion id w)) = persisted (lit "filter") w) /\
  (forall id,
     filter (snd (deleteTask id w)) = filter w /\
     persisted (lit "filter") (snd (deleteTask id w)) = persisted (lit "filter") w).
Proof.
  split; [|split; [|split]].
  - intros newFilter H.
    destruct (valid_filter_decide newFilter) as [Hv|Hn].
    + rewrite (setFilter_valid newFilter w Hv).
      rewrite write_filter, write_tasks, (write_persisted_ne _ _ _ _ filter_ne_tasks).
      auto.
    + rewrite (setFilter_invalid newFilter w Hn) in H. discriminate.
  - intros title. apply addTask_frame.
  - intros id. apply setTasks_frame.
  - intros id. apply setTasks_frame.
Qed.

Lemma operations_frame_witness :
  tasks (snd (setFilter (JStr (lit "pending")) (mount empty_storage None (fun _ => 0%Q))))
  = JArr [].
Proof.
  destruct (proj1 (operations_frame (mount empty_storage None (fun _ => 0%Q)))
              (JStr (lit "pending"))) as (_ & H & _).
  - vm_compute. reflexivity.
  - rewrite H. reflexivity.
Defined.

(** C5.  On a well-formed collection, [toggleTaskCompletion(id)] applied
    twice gives back the original collection.  Neither application throws.
    The first application flips each task whose id is the argument: at its
    position stands a task whose [completed] is the negation of what it
    was, every other property reading as before; it leaves each task with
    another id where and as it was; when no task has that id it leaves the
    collection as it is. *)
Theorem toggle_twice (id : JsVal) (w : World) :
  valid_tasks (tasks w) ->
  let w1 := snd (toggleTaskCompletion id w) in
  let w2 := snd (toggleTaskCompletion id w1) in
  fst (toggleTaskCompletion id w) = Return tt /\
  fst (toggleTaskCompletion id w1) = Return tt /\
  tasks w2 = tasks w /\
  tasks w1 = JArr (toggled id (elements_of (tasks w))) /\
  (Forall (fun task => has_id id task = false) (elements_of (tasks w)) ->
   tasks w1 = tasks w) /\
  (forall i task,
     elements_of (tasks w) !! i = Some task -> has_id id task = true ->
     exists task' b,
       elements_of (tasks w1) !! i = Some task' /\
       field task (lit "completed") = JBool b /\
       field task' (lit "completed") = JBool (negb b) /\
       forall k, k <> lit "completed" -> field task' k = field task k) /\
  (forall i task,
     elements_of (tasks w) !! i = Some task -> has_id id task = false ->
     elements_of (tasks w1) !! i = Some task).
Proof.
  intros (l & Hw & Hl). cbv zeta.
  rewrite (toggleTaskCompletion_valid id l w Hw Hl).
  set (w1 := snd (write (lit "tasks") (JArr (toggled id l)) (with_tasks (JArr (toggled id l)) w))).
  assert (tasks w1 = JArr (toggled id l)) as Hw1 by (unfold w1; rewrite write_tasks; reflexivity).
  rewrite (toggleTaskCompletion_valid id (toggled id l) w1 Hw1 (toggled_valid id l Hl)).
  rewrite !write_Return, write_tasks. simpl.
  rewrite (toggled_toggled id l Hl), Hw, Hw1. simpl.
  split; [reflexivity|]. split; [reflexivity|]. split; [reflexivity|].
  split; [reflexivity|]. split; [|split].
  - intros H. rewrite (toggled_no_match id l H). reflexivity.
  - intros i task Hi Hm.
    assert (valid_task task) as Ht.
    { rewrite Forall_forall in Hl. eapply Hl, list_elem_of_lookup_2, Hi. }
    destruct (flipped_fields task Ht) as (b & Hb & Hb' & Hk).
    exists (flipped task), b. split; [|auto].
    unfold toggled. rewrite list_lookup_fmap, Hi. simpl. rewrite Hm. reflexivity.
  - intros i task Hi Hm.
    unfold toggled. rewrite list_lookup_fmap, Hi. simpl. rewrite Hm. reflexivity.
Qed.

Lemma sample_world_valid : valid_tasks (tasks sample_world).
Proof. apply validateTasksArray_valid. vm_compute. reflexivity. Qed.

Lemma toggle_twice_witness :
  tasks (snd (toggleTaskCompletion (JStr sample_id)
                (snd (toggleTaskCompletion (JStr sample_id) sample_world))))
  = tasks sample_world
  /\ exists task',
       elements_of (tasks (snd (toggleTaskCompletion (JStr sample_id) sample_world))) !! 0%nat
       = Some task'
       /\ field task' (lit "completed") = JBool true.
Proof.
  destruct (toggle_twice (JStr sample_id) sample_world sample_world_valid)
    as (_ & _ & H2 & _ & _ & Hflip & _).
  split; [exact H2|].
  destruct (Hflip 0%nat (task_with (JStr sample_id) (JStr (lit "Buy milk")) (JBool false)))
    as (task' & b & Hl & Hb & Hb' & _).
  - reflexivity.
  - vm_compute. reflexivity.
  - exists task'. split; [exact Hl|].
    assert (b = false) as -> by (vm_compute in Hb; congruence).
    exact Hb'.
Defined.

Lemma toggled_lookup_other id l i t :
  l !! i = Some t -> has_id id t = false -> toggled id l !! i = Some t.
Proof.
  intros Hl Hn. unfold toggled. rewrite list_lookup_fmap, Hl. simpl. rewrite Hn. reflexivity.
Qed.

(** C10.  On a well-formed collection and for every argument whatsoever,
    [toggleTaskCompletion] and [deleteTask] complete without throwing;
    toggling leaves each task whose id is not strictly equal to the argument
    where and as it was; deleting keeps exactly the tasks whose id is not
    strictly equal to the argument, in their order. *)
Theorem toggle_delete_total (id : JsVal) (w : World) :
  valid_tasks (tasks w) ->
  fst (toggleTaskCompletion id w) = Return tt /\
  fst (deleteTask id w) = Return tt /\
  length (elements_of (tasks (snd (toggleTaskCompletion id w))))
    = length (elements_of (tasks w)) /\
  (forall i task,
     elements_of (tasks w) !! i = Some task -> has_id id task = false ->
     elements_of (tasks (snd (toggleTaskCompletion id w))) !! i = Some task) /\
  tasks (snd (deleteTask id w)) = JArr (without id (elements_of (tasks w))) /\
  (forall task,
     In task (elements_of (tasks (snd (deleteTask id w)))) <->
     In task (elements_of (tasks w)) /\ has_id id task = false).
Proof.
  intros (l & Hw & Hl).
  rewrite (toggleTaskCompletion_valid id l w Hw Hl), (deleteTask_valid id l w Hw Hl).
  rewrite !write_Return, !write_tasks, Hw. simpl.
  split; [reflexivity|]. split; [reflexivity|]. split; [|split; [|split]].
  - unfold toggled. apply length_map.
  - intros i task. apply toggled_lookup_other.
  - reflexivity.
  - intros task. unfold without. rewrite filter_In, negb_true_iff. reflexivity.
Qed.

Lemma toggle_delete_total_witness :
  fst (toggleTaskCompletion JNull sample_world) = Return tt
  /\ tasks (snd (deleteTask JUndefined sample_world)) = tasks sample_world.
Proof.
  destruct (toggle_delete_total JNull sample_world sample_world_valid) as (H1 & _).
  destruct (toggle_delete_total JUndefined sample_world sample_world_valid)
    as (_ & _ & _ & _ & H2 & _).
  split; [exact H1 | rewrite H2; reflexivity].
Defined.

Lemma filteredTasks_completed l :
  Forall valid_task l ->
  filteredTasks (JArr l) (JStr (lit "completed")) = Return (JArr (with_completed true l)).
Proof.
  intros H.
  assert (strict_equals (JStr (lit "completed")) (JStr (lit "completed")) = true) as E
    by (vm_compute; reflexivity).
  unfold filteredTasks, Array_filter. rewrite E, (filter_elems_completed l H). reflexivity.
Qed.

Lemma filteredTasks_pending l :
  Forall valid_task l ->
  filteredTasks (JArr l) (JStr (lit "pending")) = Return (JArr (with_completed false l)).
Proof.
  intros H.
  assert (strict_equals (JStr (lit "pending")) (JStr (lit "completed")) = false) as E1
    by (vm_compute; reflexivity).
  assert (strict_equals (JStr (lit "pending")) (JStr (lit "pending")) = true) as E2
    by (vm_compute; reflexivity).
  unfold filteredTasks, Array_filter. rewrite E1, E2, (filter_elems_pending l H). reflexivity.
Qed.

(** C2.  On a well-formed collection, [filteredTasks] under [completed] is
    the subsequence of the tasks with [completed === true], in their order;
    under [pending] the subsequence with [completed === false], which is the
    complement; under [all] the whole sequence.  It is a function of the two
    values alone: it takes no part of the store and changes none. *)
Theorem filteredTasks_subsequence (l : list JsVal) :
  Forall valid_task l ->
  filteredTasks (JArr l) (JStr (lit "completed")) = Return (JArr (with_completed true l)) /\
  filteredTasks (JArr l) (JStr (lit "pending")) = Return (JArr (with_completed false l)) /\
  filteredTasks (JArr l) (JStr (lit "all")) = Return (JArr l) /\
  (forall task, In task l ->
     (In task (with_completed true l) <-> ~ In task (with_completed false l))).
Proof.
  intros H. split; [apply filteredTasks_completed, H|].
  split; [apply filteredTasks_pending, H|]. split; [reflexivity|].
  intros task Hin. unfold with_completed. rewrite !filter_In.
  assert (valid_task task) as Hv.
  { rewrite Forall_forall in H. apply H, list_elem_of_In, Hin. }
  destruct (completed_valid_task task Hv) as [b Hb]. unfold completed_is. rewrite Hb.
  destruct b; simpl; split; intros; intuition discriminate.
Qed.

Lemma filteredTasks_subsequence_witness :
  filteredTasks (tasks sample_world) (JStr (lit "pending")) = Return (tasks sample_world).
Proof.
  destruct sample_world_valid as (l & Hl & Hv). rewrite Hl.
  rewrite (proj1 (proj2 (filteredTasks_subsequence l Hv))).
  vm_compute in Hl. injection Hl as <-. vm_compute. reflexivity.
Defined.

Lemma filteredTasks_total t f :
  valid_tasks t -> exists l, filteredTasks t f = Return (JArr l) /\ Forall valid_task l.
Proof.
  intros (l & -> & Hl). unfold filteredTasks, Array_filter.
  destruct (strict_equals f (JStr (lit "completed"))).
  - rewrite (filter_elems_completed l Hl). eexists. split; [reflexivity|].
    unfold with_completed. clear -Hl. induction Hl as [|x l Hx Hl IH]; simpl; [constructor|].
    destruct (completed_is true x); [constructor|]; assumption.
  - destruct (strict_equals f (JStr (lit "pending"))).
    + rewrite (filter_elems_pending l Hl). eexists. split; [reflexivity|].
      unfold with_completed. clear -Hl. induction Hl as [|x l Hx Hl IH]; simpl; [constructor|].
      destruct (completed_is false x); [constructor|]; assumption.
    + eauto.
Qed.

Lemma valid_tasks_empty : valid_tasks (JArr []).
Proof. exists []. split; [reflexivity | constructor]. Qed.

Lemma validated_tasks_valid w :
  valid_tasks (validated_tasks w).
Proof.
  unfold validated_tasks. destruct (validateTasksArray (tasks w)) as [r|e] eqn:E.
  - apply validateTasksArray_Return in E. tauto.
  - apply valid_tasks_empty.
Qed.

Lemma validated_filter_valid w :
  valid_filter (validated_filter w).
Proof.
  unfold validated_filter, validateFilter.
  destruct (includes validFilters (filter w)) eqn:E; simpl.
  - apply includes_validFilters, E.
  - left. reflexivity.
Qed.

Lemma validatedTasks_run w :
  exists w1,
    validatedTasks w = (Return (validated_tasks w), w1) /\
    tasks w1 = validated_tasks w /\ filter w1 = filter w /\
    setItem_raises (localStorage w1) = setItem_raises (localStorage w) /\
    persisted (lit "filter") w1 = persisted (lit "filter") w /\
    persisted (lit "tasks") w1 =
      match validateTasksArray (tasks w) with
      | Return _ => persisted (lit "tasks") w
      | Throw _ => if setItem_raises (localStorage w) then persisted (lit "tasks") w
                   else Some (Json (JArr []))
      end.
Proof.
  unfold validatedTasks, validated_tasks, try_catch_eff, bind, pure, ret.
  destruct (validateTasksArray (tasks w)) as [r|e].
  - exists w. auto 10.
  - unfold console_warn. cbv beta iota.
    set (w0 := with_console _ w).
    assert (setItem_raises (localStorage w0) = setItem_raises (localStorage w)) as Hf
      by reflexivity.
    unfold setTasks. simpl next_value. cbv beta iota.
    set (w0' := with_tasks (JArr []) w0).
    pose proof (write_Return (lit "tasks") (JArr []) w0') as R.
    pose proof (write_tasks (lit "tasks") (JArr []) w0') as T.
    pose proof (write_filter (lit "tasks") (JArr []) w0') as F.
    pose proof (write_flags (lit "tasks") (JArr []) w0') as [G _].
    pose proof (write_persisted_ne (lit "tasks") (lit "filter") (JArr []) w0' tasks_ne_filter) as P.
    pose proof (write_persisted_eq (lit "tasks") (JArr []) w0') as Q.
    pose proof (write_raises (lit "tasks") (JArr []) w0') as Q'.
    destruct (write (lit "tasks") (JArr []) w0') as [[[]|e'] w1]; simpl in *; [|discriminate].
    exists w1. repeat split; try assumption.
    destruct (setItem_raises (localStorage w)) eqn:Hs.
    + unfold persisted. rewrite (Q' eq_refl). reflexivity.
    + apply Q. reflexivity.
Qed.

Lemma validatedFilter_run w :
  exists w1,
    validatedFilter w = (Return (validated_filter w), w1) /\
    filter w1 = validated_filter w /\ tasks w1 = tasks w /\
    setItem_raises (localStorage w1) = setItem_raises (localStorage w) /\
    persisted (lit "tasks") w1 = persisted (lit "tasks") w /\
    persisted (lit "filter") w1 =
      match validateFilter (filter w) with
      | Return _ => persisted (lit "filter") w
      | Throw _ => if setItem_raises (localStorage w) then persisted (lit "filter") w
                   else Some (Json (JStr (lit "all")))
      end.
Proof.
  unfold validatedFilter, validated_filter, try_catch_eff, bind, pure, ret.
  destruct (validateFilter (filter w)) as [r|e].
  - exists w. auto 10.
  - unfold console_warn. cbv beta iota.
    set (w0 := with_console _ w).
    assert (setItem_raises (localStorage w0) = setItem_raises (localStorage w)) as Hf
      by reflexivity.
    unfold setFilterState. simpl next_value. cbv beta iota.
    set (w0' := with_filter (JStr (lit "all")) w0).
    pose proof (write_Return (lit "filter") (JStr (lit "all")) w0') as R.
    pose proof (write_tasks (lit "filter") (JStr (lit "all")) w0') as T.
    pose proof (write_filter (lit "filter") (JStr (lit "all")) w0') as F.
    pose proof (write_flags (lit "filter") (JStr (lit "all")) w0') as [G _].
    pose proof (write_persisted_ne (lit "filter") (lit "tasks") (JStr (lit "all")) w0'
                  filter_ne_tasks) as P.
    pose proof (write_persisted_eq (lit "filter") (JStr (lit "all")) w0') as Q.
    pose proof (write_raises (lit "filter") (JStr (lit "all")) w0') as Q'.
    destruct (write (lit "filter") (JStr (lit "all")) w0') as [[[]|e'] w1]; simpl in *;
      [|discriminate].
    exists w1. repeat split; try assumption.
    destruct (setItem_raises (localStorage w)) eqn:Hs.
    + unfold persisted. rewrite (Q' eq_refl). reflexivity.
    + apply Q. reflexivity.
Qed.

(** One render, step by step: what it exposes and the world it leaves. *)
Lemma TaskProvider_run w :
  exists ft,
    filteredTasks (validated_tasks w) (validated_filter w) = Return ft /\
    fst (TaskProvider w) =
      Return {| cv_tasks := validated_tasks w; cv_filter := validated_filter w;
                cv_filteredTasks := ft |} /\
    tasks (snd (TaskProvider w)) = validated_tasks w /\
    filter (snd (TaskProvider w)) = validated_filter w /\
    persisted (lit "tasks") (snd (TaskProvider w)) =
      match validateTasksArray (tasks w) with
      | Return _ => persisted (lit "tasks") w
      | Throw _ => if setItem_raises (localStorage w) then persisted (lit "tasks") w
                   else Some (Json (JArr []))
      end /\
    persisted (lit "filter") (snd (TaskProvider w)) =
      match validateFilter (filter w) with
      | Return _ => persisted (lit "filter") w
      | Throw _ => if setItem_raises (localStorage w) then persisted (lit "filter") w
                   else Some (Json (JStr (lit "all")))
      end.
Proof.
  destruct (filteredTasks_total (validated_tasks w) (validated_filter w)
              (validated_tasks_valid w)) as (l & Hft & _).
  exists (JArr l). split; [exact Hft|].
  destruct (validatedTasks_run w) as (w1 & E1 & T1 & F1 & S1 & PF1 & PT1).
  destruct (validatedFilter_run w1) as (w2 & E2 & F2 & T2 & S2 & PT2 & PF2).
  assert (validated_filter w1 = validated_filter w) as Hvf
    by (unfold validated_filter; rewrite F1; reflexivity).
  unfold TaskProvider, bind, pure, ret. rewrite E1, E2, Hvf, Hft. simpl.
  rewrite T2, T1, F2, Hvf, PT2, PT1, PF2, F1, S1, PF1. auto 10.
Qed.

Lemma tasks_side_run w :
  tasks_side w =
    (Some (validated_tasks w), validated_tasks w,
     match validateTasksArray (tasks w) with
     | Return _ => persisted (lit "tasks") w
     | Throw _ => if setItem_raises (localStorage w) then persisted (lit "tasks") w
                  else Some (Json (JArr []))
     end).
Proof.
  destruct (TaskProvider_run w) as (ft & _ & E & T & _ & P & _).
  unfold tasks_side, exposed, rendered. rewrite E, T, P. reflexivity.
Qed.

Lemma filter_side_run w :
  filter_side w =
    (Some (validated_filter w), validated_filter w,
     match validateFilter (filter w) with
     | Return _ => persisted (lit "filter") w
     | Throw _ => if setItem_raises (localStorage w) then persisted (lit "filter") w
                  else Some (Json (JStr (lit "all")))
     end).
Proof.
  destruct (TaskProvider_run w) as (ft & _ & E & _ & F & _ & P).
  unfold filter_side, exposed, rendered. rewrite E, F, P. reflexivity.
Qed.

(** C1.  A render never throws.  When the collection in memory fails
    [validateTasksArray], the render exposes the empty collection, makes it
    the collection in memory and writes it to the [tasks] entry (the entry
    holds it when the backing store accepts the write).  When the filter
    fails [validateFilter], the render exposes [all], makes it the filter in
    memory and writes it to the [filter] entry.  What a render does on the
    side of the tasks does not depend on the filter, and conversely. *)
Theorem self_healing (w : World) :
  (exists cv,
     fst (TaskProvider w) = Return cv /\
     ((exists e, validateTasksArray (tasks w) = Throw e) ->
        cv_tasks cv = JArr [] /\ tasks (rendered w) = JArr [] /\
        (setItem_raises (localStorage w) = false ->
           persisted (lit "tasks") (rendered w) = Some (Json (JArr [])))) /\
     ((exists e, validateFilter (filter w) = Throw e) ->
        cv_filter cv = JStr (lit "all") /\ filter (rendered w) = JStr (lit "all") /\
        (setItem_raises (localStorage w) = false ->
           persisted (lit "filter") (rendered w) = Some (Json (JStr (lit "all")))))) /\
  (forall f, tasks_side (with_filter f w) = tasks_side w) /\
  (forall t, filter_side (with_tasks t w) = filter_side w).
Proof.
  split; [|split].
  - destruct (TaskProvider_run w) as (ft & _ & E & T & F & PT & PF).
    eexists. split; [exact E|]. unfold rendered. simpl. split.
    + intros [e He]. rewrite T, PT. unfold validated_tasks. rewrite He.
      repeat split. intros ->. reflexivity.
    + intros [e He]. rewrite F, PF. unfold validated_filter. rewrite He.
      repeat split. intros ->. reflexivity.
  - intros f. rewrite !tasks_side_run. reflexivity.
  - intros t. rewrite !filter_side_run. reflexivity.
Qed.

Lemma self_healing_witness :
  tasks (rendered (with_tasks (JStr (lit "not json")) sample_world)) = JArr []
  /\ filter (rendered (with_filter (JStr (lit "bogus")) sample_world)) = JStr (lit "all").
Proof.
  split.
  - destruct (proj1 (self_healing (with_tasks (JStr (lit "not json")) sample_world)))
      as (cv & _ & H & _).
    apply H. eexists. vm_compute. reflexivity.
  - destruct (proj1 (self_healing (with_filter (JStr (lit "bogus")) sample_world)))
      as (cv & _ & _ & H).
    apply H. eexists. vm_compute. reflexivity.
Defined.

End StoreClaims.

(** ** Generated ids *)

Module Ids.

Import Task useLocalStorage TaskContext Spec UUID Valid.

Local Open Scope Z_scope.

Lemma draw_range rnd k : unit_interval rnd -> 0 <= draw rnd k < 16.
Proof.
  intros H. destruct (H k) as [H0 H1]. unfold draw, ToInt32, trunc.
  assert (0 <= rnd k * 16)%Q as Hp.
  { apply Qmult_le_0_compat; [assumption | discriminate]. }
  assert (rnd k * 16 < inject_Z 16)%Q as Hq.
  { eapply Qlt_le_trans; [apply Qmult_lt_compat_r; [reflexivity | exact H1]|].
    unfold Qle. simpl. lia. }
  apply Qle_bool_iff in Hp as Hb. rewrite Hb.
  assert (0 <= Qfloor (rnd k * 16)) as Hl.
  { change 0 with (Qfloor 0). apply Qfloor_resp_le, Hp. }
  assert (Qfloor (rnd k * 16) < 16) as Hu.
  { rewrite Zlt_Qlt. eapply Qle_lt_trans; [apply Qfloor_le | exact Hq]. }
  rewrite Z.lor_0_r.
  rewrite Z.mod_small by lia. lia.
Qed.

Lemma digit_for_range c r : 0 <= r < 16 -> 0 <= digit_for c r < 16.
Proof.
  intros H. unfold digit_for. destruct (c =? 120)%N; [assumption|].
  assert (r = 0 \/ r = 1 \/ r = 2 \/ r = 3 \/ r = 4 \/ r = 5 \/ r = 6 \/ r = 7 \/ r = 8
          \/ r = 9 \/ r = 10 \/ r = 11 \/ r = 12 \/ r = 13 \/ r = 14 \/ r = 15) as Hr by lia.
  repeat (destruct Hr as [->|Hr]; [vm_compute; split; [discriminate | reflexivity]|]).
  subst. vm_compute. split; [discriminate | reflexivity].
Qed.

Lemma digit_for_variant c r :
  c <> 120%N -> 0 <= r < 16 -> 8 <= digit_for c r < 12.
Proof.
  intros Hc H. unfold digit_for. apply N.eqb_neq in Hc. rewrite Hc.
  assert (r = 0 \/ r = 1 \/ r = 2 \/ r = 3 \/ r = 4 \/ r = 5 \/ r = 6 \/ r = 7 \/ r = 8
          \/ r = 9 \/ r = 10 \/ r = 11 \/ r = 12 \/ r = 13 \/ r = 14 \/ r = 15) as Hr by lia.
  repeat (destruct Hr as [->|Hr]; [vm_compute; split; [discriminate | reflexivity]|]).
  subst. vm_compute. split; [discriminate | reflexivity].
Qed.

Lemma toString16_digit d : 0 <= d < 16 -> toString16 d = [hexchar d].
Proof.
  intros H.
  assert (d = 0 \/ d = 1 \/ d = 2 \/ d = 3 \/ d = 4 \/ d = 5 \/ d = 6 \/ d = 7 \/ d = 8
          \/ d = 9 \/ d = 10 \/ d = 11 \/ d = 12 \/ d = 13 \/ d = 14 \/ d = 15) as Hd by lia.
  repeat (destruct Hd as [->|Hd]; [vm_compute; reflexivity|]).
  subst. vm_compute. reflexivity.
Qed.

Lemma hexchar_hex d : 0 <= d < 16 -> is_hex_digit (hexchar d) = true.
Proof.
  intros H. unfold hexchar, is_hex_digit, in_range.
  destruct (Z.ltb_spec d 10); rewrite ?orb_true_iff, ?andb_true_iff, ?N.leb_le; lia.
Qed.

Lemma hexchar_variant d : 8 <= d < 12 -> is_variant_digit (hexchar d) = true.
Proof.
  intros H. unfold hexchar, is_variant_digit.
  destruct (Z.ltb_spec d 10); rewrite ?orb_true_iff, ?N.eqb_eq; lia.
Qed.


Lemma with_random_calls_id w : with_random_calls (random_calls w) w = w.
Proof. destruct w. reflexivity. Qed.

Lemma placeholders_cons c t :
  placeholders (c :: t) =
    if is_placeholder c then S (placeholders t) else placeholders t.
Proof. unfold placeholders. simpl. destruct (is_placeholder c); reflexivity. Qed.

(** The fallback, run: the string it returns and the draws it consumes. *)
Lemma replace_xy_run t w :
  replace_xy t w =
    (Return (fill t (random w) (random_calls w)),
     with_random_calls (random_calls w + placeholders t)%nat w).
Proof.
  revert w. induction t as [|c t IH]; intros w.
  - simpl. unfold ret, placeholders. simpl. rewrite Nat.add_0_r, with_random_calls_id.
    reflexivity.
  - rewrite placeholders_cons. simpl. unfold bind.
    fold (is_placeholder c). destruct (is_placeholder c) eqn:E.
    + unfold replacer, bind, Math_random, ret. rewrite IH.
      apply pair_equal_spec. split; [reflexivity|].
      destruct w. unfold with_random_calls. simpl. f_equal. lia.
    + unfold ret. rewrite IH. reflexivity.
Qed.

Lemma fill_fills t rnd k :
  unit_interval rnd -> Forall2 fills t (fill t rnd k).
Proof.
  intros H. revert k. induction t as [|c t IH]; intros k; simpl; [constructor|].
  unfold is_placeholder. destruct (c =? 120)%N eqn:Ex; simpl.
  - rewrite toString16_digit by (apply digit_for_range, draw_range, H). simpl.
    constructor; [|apply IH]. unfold fills. rewrite Ex.
    apply hexchar_hex, digit_for_range, draw_range, H.
  - destruct (c =? 121)%N eqn:Ey.
    + rewrite toString16_digit by (apply digit_for_range, draw_range, H). simpl.
      constructor; [|apply IH]. unfold fills. rewrite Ex, Ey.
      apply hexchar_variant, digit_for_variant; [|apply draw_range, H].
      apply N.eqb_neq, Ex.
    + constructor; [|apply IH]. unfold fills. rewrite Ex, Ey. reflexivity.
Qed.

Lemma fills_uuidTemplate s : Forall2 fills uuidTemplate s -> canonical_uuid_v4 s.
Proof.
  intros H. vm_compute in H.
  repeat match goal with
         | H : Forall2 _ (_ :: _) _ |- _ => inversion H; clear H; subst
         | H : Forall2 _ [] _ |- _ => inversion H; clear H; subst
         end.
  split; [reflexivity|]. intros i c Hc.
  do 36 (destruct i as [|i]; [injection Hc as <-; first [assumption | reflexivity]|]).
  discriminate.
Qed.

Lemma fallback_valid rnd k :
  unit_interval rnd -> isValidUUID (JStr (fill uuidTemplate rnd k)) = true.
Proof.
  intros H. apply isValidUUID_valid_id. eexists. split; [reflexivity|].
  apply fills_uuidTemplate, fill_fills, H.
Qed.


Lemma generateTaskId_fallback w :
  fallback_only w ->
  generateTaskId w =
    (Return (fill uuidTemplate (random w) (random_calls w)),
     with_random_calls (random_calls w + 31)%nat w).
Proof.
  intros [H|H]; unfold generateTaskId; rewrite H; apply replace_xy_run.
Qed.

Lemma generateTaskId_valid w :
  platform_ok w ->
  exists id w', generateTaskId w = (Return id, w') /\ isValidUUID (JStr id) = true
                /\ same_store w w' /\ (random_calls w <= random_calls w')%nat
                /\ (fallback_only w -> random_calls w' = (random_calls w + 31)%nat).
Proof.
  intros [Hr Hc].
  destruct (crypto w) as [[[source|]]|] eqn:E.
  - unfold generateTaskId. rewrite E. unfold crypto_randomUUID.
    eexists _, _. split; [reflexivity|]. split; [apply (Hc source eq_refl)|].
    split; [unfold same_store; simpl; auto 10|]. split; [simpl; lia|].
    intros [F|F]; congruence.
  - rewrite generateTaskId_fallback by (right; assumption).
    eexists _, _. split; [reflexivity|]. split; [apply fallback_valid, Hr|].
    split; [unfold same_store; simpl; auto 10|]. simpl. split; [lia | reflexivity].
  - rewrite generateTaskId_fallback by (left; assumption).
    eexists _, _. split; [reflexivity|]. split; [apply fallback_valid, Hr|].
    split; [unfold same_store; simpl; auto 10|]. simpl. split; [lia | reflexivity].
Qed.







Lemma zero_source_ok : platform_ok (mount empty_storage None (fun _ => 0%Q)).
Proof.
  split.
  - intros i. split; [apply Qle_refl | reflexivity].
  - intros source H. discriminate.
Qed.



End Ids.

(** ** Titles *)

Module Titles.

Import Task Spec Valid.

Lemma trimStart_clean s : starts_clean (trimStart s).
Proof.
  induction s as [|c s IH]; simpl; [exact I|].
  destruct (is_white_space c) eqn:E; [exact IH | exact E].
Qed.

Lemma trimStart_fixed s : starts_clean s -> trimStart s = s.
Proof. destruct s as [|c s]; simpl; [reflexivity|]. intros ->. reflexivity. Qed.

Lemma trimStart_snoc l c :
  is_white_space c = false -> trimStart (l ++ [c]) = trimStart l ++ [c].
Proof.
  intros Hc. induction l as [|x l IH]; simpl.
  - rewrite Hc. reflexivity.
  - destruct (is_white_space x); [exact IH | reflexivity].
Qed.

Lemma trimEnd_keeps_start s : starts_clean s -> starts_clean (trimEnd s).
Proof.
  destruct s as [|c s]; [intros _; exact I|]. simpl. intros Hc.
  unfold trimEnd. simpl. rewrite (trimStart_snoc _ _ Hc), rev_app_distr. simpl. exact Hc.
Qed.

Lemma trimEnd_clean s : starts_clean (rev (trimEnd s)).
Proof. unfold trimEnd. rewrite rev_involutive. apply trimStart_clean. Qed.

Lemma trim_trimmed s : trimmed (trim s).
Proof.
  unfold trim. split.
  - apply trimEnd_keeps_start, trimStart_clean.
  - apply trimEnd_clean.
Qed.

Lemma trim_fixed s : trimmed s -> trim s = s.
Proof.
  intros [H1 H2]. unfold trim, trimEnd. rewrite (trimStart_fixed s H1).
  rewrite (trimStart_fixed _ H2). apply rev_involutive.
Qed.

Lemma trim_idempotent s : trim (trim s) = trim s.
Proof. apply trim_fixed, trim_trimmed. Qed.

(** A title [validateTaskTitle] returns is in normal form: it is not empty,
    has at most 500 code units, neither begins nor ends with white space,
    and validates to itself. *)
Theorem validateTaskTitle_normal (x : JsVal) (t : jsstring) :
  validateTaskTitle x = Return t ->
  (0 < length t <= 500)%nat /\ trimmed t /\ validateTaskTitle (JStr t) = Return t.
Proof.
  intros H. apply validateTaskTitle_Return in H as (s & -> & -> & Hl).
  split; [exact Hl|]. split; [apply trim_trimmed|].
  apply validateTaskTitle_Return. exists (trim s).
  rewrite trim_idempotent. auto.
Qed.

Lemma validateTaskTitle_normal_witness :
  validateTaskTitle (JStr (lit "Trimmed task")) = Return (lit "Trimmed task").
Proof.
  apply (validateTaskTitle_normal (JStr (lit "  Trimmed task  "))).
  vm_compute. reflexivity.
Defined.

End Titles.

(** ** Creating and adding tasks *)

Module Creation.

Import Task useLocalStorage TaskContext Spec UUID Valid Collections Store.

Lemma field_task_with a b c :
  field (task_with a b c) (lit "id") = a /\
  field (task_with a b c) (lit "title") = b /\
  field (task_with a b c) (lit "completed") = c.
Proof. repeat split; reflexivity. Qed.

Lemma task_with_valid id t b :
  isValidUUID (JStr id) = true -> validateTaskTitle (JStr t) = Return t ->
  valid_task (task_with (JStr id) (JStr t) (JBool b)).
Proof.
  intros Hid Ht. destruct (field_task_with (JStr id) (JStr t) (JBool b)) as (E1 & E2 & E3).
  unfold valid_task. rewrite E1, E2, E3.
  split; [split; [reflexivity | discriminate]|].
  split; [apply isValidUUID_valid_id, Hid|].
  split; [apply validateTaskTitle_valid; eauto | exists b; reflexivity].
Qed.

Lemma validateTaskTitle_again x t :
  validateTaskTitle x = Return t -> validateTaskTitle (JStr t) = Return t.
Proof.
  intros H. apply validateTaskTitle_Return in H as (s & -> & -> & Hl).
  apply validateTaskTitle_Return. exists (trim s).
  rewrite Titles.trim_idempotent. auto.
Qed.

Lemma createTask_run title t w :
  platform_ok w -> validateTaskTitle title = Return t ->
  exists id w',
    createTask title w = (Return (task_with (JStr id) (JStr t) (JBool false)), w') /\
    isValidUUID (JStr id) = true /\ same_store w w'.
Proof.
  intros Hw Ht. destruct (Ids.generateTaskId_valid w Hw) as (id & w' & E & Hid & Hs & _).
  exists id, w'. unfold createTask, bind, pure, ret. rewrite Ht, E. auto.
Qed.

(** [createTask] on an acceptable title returns a well-formed task: a valid
    id, the trimmed title, not completed; it changes nothing of the store.
    On any other title it throws the failure of the title check, before any
    id is generated: the world is as it was. *)
Theorem createTask_result (title : JsVal) (w : World) :
  platform_ok w ->
  (forall t, validateTaskTitle title = Return t ->
     exists task w',
       createTask title w = (Return task, w') /\ valid_task task /\
       field task (lit "title") = JStr t /\
       field task (lit "completed") = JBool false /\ same_store w w') /\
  (forall e, validateTaskTitle title = Throw e -> createTask title w = (Throw e, w)).
Proof.
  intros Hw. split.
  - intros t Ht. destruct (createTask_run title t w Hw Ht) as (id & w' & E & Hid & Hs).
    eexists _, w'. split; [exact E|].
    split; [apply task_with_valid; [exact Hid | eapply validateTaskTitle_again; exact Ht]|].
    destruct (field_task_with (JStr id) (JStr t) (JBool false)) as (_ & E2 & E3). auto.
  - intros e He. unfold createTask, bind, pure. rewrite He. reflexivity.
Qed.

Lemma createTask_result_witness :
  createTask (JStr []) (mount empty_storage None (fun _ => 0%Q))
  = (Throw EmptyTitle, mount empty_storage None (fun _ => 0%Q)).
Proof.
  apply (proj2 (createTask_result (JStr []) _ Ids.zero_source_ok)). reflexivity.
Defined.

Lemma addTask_run title t l w :
  platform_ok w -> validateTaskTitle title = Return t -> tasks w = JArr l ->
  exists id w1,
    isValidUUID (JStr id) = true /\ same_store w w1 /\
    addTask title w =
      write (lit "tasks") (JArr (l ++ [task_with (JStr id) (JStr t) (JBool false)]))
            (with_tasks (JArr (l ++ [task_with (JStr id) (JStr t) (JBool false)])) w1).
Proof.
  intros Hw Ht Hl.
  destruct (createTask_run title t w Hw Ht) as (id & w1 & E & Hid & Hs).
  exists id, w1. split; [exact Hid|]. split; [exact Hs|].
  unfold addTask, try_catch_eff, bind. rewrite E.
  assert (tasks w1 = JArr l) as Hl1 by (destruct Hs as (-> & _); exact Hl).
  rewrite (setTasks_Return (append_task _) (JArr (l ++ [task_with (JStr id) (JStr t) (JBool false)])) w1)
    by (unfold append_task; rewrite Hl1; reflexivity).
  pose proof (write_Return (lit "tasks")
                (JArr (l ++ [task_with (JStr id) (JStr t) (JBool false)]))
                (with_tasks (JArr (l ++ [task_with (JStr id) (JStr t) (JBool false)])) w1)) as R.
  destruct (write _ _ _) as [[[]|e] w2]; simpl in *; [reflexivity | discriminate].
Qed.

(** [addTask] with an acceptable title, on a well-formed collection:
    it completes normally, the collection becomes the old one followed by
    one new well-formed task with the trimmed title, not completed; the
    collection is still well-formed, and its entry holds it when the store
    accepts the write. *)
Theorem addTask_appends (title : JsVal) (t : jsstring) (w : World) :
  platform_ok w -> valid_tasks (tasks w) -> validateTaskTitle title = Return t ->
  exists task,
    fst (addTask title w) = Return tt /\
    tasks (snd (addTask title w)) = JArr (elements_of (tasks w) ++ [task]) /\
    valid_task task /\ field task (lit "title") = JStr t /\
    field task (lit "completed") = JBool false /\
    valid_tasks (tasks (snd (addTask title w))) /\
    (setItem_raises (localStorage w) = false ->
     persisted (lit "tasks") (snd (addTask title w))
     = Some (Json (tasks (snd (addTask title w))))).
Proof.
  intros Hw (l & Hl & Hv) Ht.
  destruct (addTask_run title t l w Hw Ht Hl) as (id & w1 & Hid & Hs & E).
  exists (task_with (JStr id) (JStr t) (JBool false)).
  assert (valid_task (task_with (JStr id) (JStr t) (JBool false))) as Hnew
    by (apply task_with_valid; [exact Hid | eapply validateTaskTitle_again; exact Ht]).
  destruct (field_task_with (JStr id) (JStr t) (JBool false)) as (_ & E2 & E3).
  rewrite E, write_Return, write_tasks, Hl. simpl.
  split; [reflexivity|]. split; [reflexivity|]. split; [exact Hnew|].
  split; [exact E2|]. split; [exact E3|]. split.
  - eexists. split; [reflexivity|]. apply Forall_app. split; [exact Hv|].
    constructor; [exact Hnew | constructor].
  - intros Hr. apply write_persisted_eq. simpl.
    destruct Hs as (_ & _ & -> & _). exact Hr.
Qed.

Lemma addTask_appends_witness :
  exists task,
    tasks (snd (addTask (JStr (lit "  Walk  ")) sample_world))
    = JArr (elements_of (tasks sample_world) ++ [task])
    /\ field task (lit "title") = JStr (lit "Walk").
Proof.
  destruct (addTask_appends (JStr (lit "  Walk  ")) (lit "Walk") sample_world
              Ids.zero_source_ok StoreClaims.sample_world_valid)
    as (task & _ & H1 & _ & H2 & _).
  - vm_compute. reflexivity.
  - exists task. auto.
Defined.

(** [addTask] with a title that fails validation throws that failure to the
    caller and changes nothing at all: no task, no entry, no log, no random
    number drawn. *)
Theorem addTask_rejects (title : JsVal) (e : JsError) (w : World) :
  validateTaskTitle title = Throw e -> addTask title w = (Throw e, w).
Proof.
  intros H. unfold addTask, try_catch_eff, bind, createTask, pure, throw.
  rewrite H. reflexivity.
Qed.

Lemma addTask_rejects_witness :
  addTask JNull sample_world = (Throw InvalidTitle, sample_world).
Proof. apply addTask_rejects. reflexivity. Defined.

End Creation.

(** ** The store as a machine *)

Module Machine.

Import Task useLocalStorage TaskContext Spec UUID Valid Collections Store.

Lemma validatedTasks_healthy w :
  valid_tasks (tasks w) -> validatedTasks w = (Return (tasks w), w).
Proof.
  intros H. apply validateTasksArray_valid in H.
  unfold validatedTasks, try_catch_eff, bind, pure, ret. rewrite H. reflexivity.
Qed.

Lemma validatedFilter_healthy w :
  valid_filter (filter w) -> validatedFilter w = (Return (filter w), w).
Proof.
  intros H. apply validateFilter_valid in H.
  unfold validatedFilter, try_catch_eff, bind, pure, ret. rewrite H. reflexivity.
Qed.

(** A render of a store whose collection and filter are well-formed exposes
    them as they are and changes nothing: no write, no log. *)
Theorem TaskProvider_healthy (w : World) :
  valid_tasks (tasks w) -> valid_filter (filter w) ->
  exists filtered,
    TaskProvider w =
      (Return {| cv_tasks := tasks w; cv_filter := filter w; cv_filteredTasks := filtered |},
       w)
    /\ filteredTasks (tasks w) (filter w) = Return filtered.
Proof.
  intros Ht Hf.
  destruct (StoreClaims.filteredTasks_total (tasks w) (filter w) Ht) as (l & E & _).
  exists (JArr l). split; [|exact E].
  unfold TaskProvider, bind, pure, ret.
  rewrite (validatedTasks_healthy w Ht), (validatedFilter_healthy w Hf), E. reflexivity.
Qed.

Lemma rendered_healthy w :
  valid_tasks (tasks w) -> valid_filter (filter w) -> rendered w = w.
Proof.
  intros Ht Hf.
  destruct (StoreClaims.filteredTasks_total (tasks w) (filter w) Ht) as (l & E & _).
  unfold rendered, TaskProvider, bind, pure, ret.
  rewrite (validatedTasks_healthy w Ht), (validatedFilter_healthy w Hf), E. reflexivity.
Qed.

Lemma sample_filter_valid : valid_filter (filter sample_world).
Proof. left. reflexivity. Qed.

Lemma TaskProvider_healthy_witness : rendered sample_world = sample_world.
Proof.
  destruct (TaskProvider_healthy sample_world StoreClaims.sample_world_valid
              sample_filter_valid) as (filtered & E & _).
  unfold rendered. rewrite E. reflexivity.
Defined.

Lemma rendered_valid w :
  valid_tasks (tasks (rendered w)) /\ valid_filter (filter (rendered w)).
Proof.
  destruct (StoreClaims.TaskProvider_run w) as (ft & _ & _ & T & F & _).
  unfold rendered. rewrite T, F.
  split; [apply StoreClaims.validated_tasks_valid | apply StoreClaims.validated_filter_valid].
Qed.

(** Whatever the store was loaded with and whatever operations are called
    with whatever arguments, after each render the collection in memory
    passes [validateTasksArray] and the filter passes [validateFilter];
    and a render repeated changes nothing more. *)
Theorem run_invariant (ops : list Operation) (w : World) :
  valid_tasks (tasks (run ops (rendered w))) /\
  valid_filter (filter (run ops (rendered w))) /\
  rendered (run ops (rendered w)) = run ops (rendered w).
Proof.
  assert (valid_tasks (tasks (run ops (rendered w))) /\
          valid_filter (filter (run ops (rendered w)))) as [Ht Hf].
  { unfold run. revert w. induction ops as [|op ops IH] using rev_ind; intros w.
    - apply rendered_valid.
    - rewrite fold_left_app. simpl. unfold step. apply rendered_valid. }
  split; [exact Ht|]. split; [exact Hf|]. apply rendered_healthy; assumption.
Qed.

Lemma spread_valid l : spread_elements (JArr l) = Return l.
Proof. reflexivity. Qed.

(** On a platform that honours its contract, an operation applied to a
    well-formed store leaves a well-formed store: the next render resets
    nothing, so no task is ever lost to the recovery path. *)
Theorem perform_keeps_valid (op : Operation) (w : World) :
  platform_ok w -> valid_tasks (tasks w) -> valid_filter (filter w) ->
  valid_tasks (tasks (snd (perform op w))) /\
  valid_filter (filter (snd (perform op w))) /\
  step op w = snd (perform op w).
Proof.
  intros Hp Ht Hf.
  assert (valid_tasks (tasks (snd (perform op w))) /\
          valid_filter (filter (snd (perform op w)))) as [Ht' Hf'].
  { destruct op as [title|id|id|newFilter]; simpl.
    - destruct (StoreClaims.addTask_frame title w) as [F _]. rewrite F.
      split; [|exact Hf].
      destruct (validateTaskTitle title) as [t|e] eqn:E.
      + destruct Ht as (l & Hl & Hv).
        destruct (Creation.addTask_run title t l w Hp E Hl) as (id & w1 & Hid & Hs & R).
        rewrite R, write_tasks. simpl. eexists. split; [reflexivity|].
        apply Forall_app. split; [exact Hv|]. constructor; [|constructor].
        apply Creation.task_with_valid; [exact Hid|].
        eapply Creation.validateTaskTitle_again; exact E.
      + unfold addTask, try_catch_eff, bind, createTask, pure, throw. rewrite E. exact Ht.
    - destruct (setTasks_frame (Updater (fun p => Array_map (toggle_task id) p)) w) as [F _].
      unfold toggleTaskCompletion at 2. rewrite F. split; [|exact Hf].
      destruct Ht as (l & Hl & Hv). rewrite (toggleTaskCompletion_valid id l w Hl Hv).
      rewrite write_tasks. simpl. eexists. split; [reflexivity|]. apply toggled_valid, Hv.
    - destruct (setTasks_frame (Updater (fun p => Array_filter (other_task id) p)) w) as [F _].
      unfold deleteTask at 2. rewrite F. split; [|exact Hf].
      destruct Ht as (l & Hl & Hv). rewrite (deleteTask_valid id l w Hl Hv).
      rewrite write_tasks. simpl. eexists. split; [reflexivity|]. apply without_valid, Hv.
    - destruct (valid_filter_decide newFilter) as [Hv|Hn].
      + rewrite (StoreClaims.setFilter_valid newFilter w Hv), write_tasks, write_filter.
        simpl. auto.
      + rewrite (StoreClaims.setFilter_invalid newFilter w Hn). simpl. auto. }
  split; [exact Ht'|]. split; [exact Hf'|].
  unfold step. apply rendered_healthy; assumption.
Qed.

Lemma perform_keeps_valid_witness :
  step (ToggleTaskCompletion (JStr sample_id)) sample_world
  = snd (perform (ToggleTaskCompletion (JStr sample_id)) sample_world).
Proof.
  exact (proj2 (proj2 (perform_keeps_valid (ToggleTaskCompletion (JStr sample_id))
                         sample_world Ids.zero_source_ok StoreClaims.sample_world_valid
                         sample_filter_valid))).
Defined.

End Machine.

(** ** More on collections *)

Module MoreCollections.

Import Task useLocalStorage TaskContext Spec UUID Valid Collections Store.

Lemma forEach_validate_first i l1 t l2 e :
  Forall valid_task l1 -> validateTask t = Throw e ->
  forEach_validate i (l1 ++ t :: l2) = Throw (InvalidTaskAt (i + length l1) e).
Proof.
  intros H He. revert i. induction H as [|x l1 Hx Hl IH]; intros i; simpl.
  - rewrite He. simpl. rewrite Nat.add_0_r. reflexivity.
  - apply validateTask_valid in Hx. rewrite Hx. simpl. rewrite IH.
    do 2 f_equal. lia.
Qed.

(** [validateTasksArray] reports the first element that fails: when the
    elements before position [n] are well-formed and the one at [n] fails
    with [e], the error carries the index [n] and the message of [e]; and
    what is not an array fails with NotAnArray. *)
Theorem validateTasksArray_first_failure (l1 l2 : list JsVal) (t : JsVal) (e : JsError) :
  Forall valid_task l1 -> validateTask t = Throw e ->
  validateTasksArray (JArr (l1 ++ t :: l2)) = Throw (InvalidTaskAt (length l1) e)
  /\ message (InvalidTaskAt (length l1) e)
     = lit "Invalid task at index " ++ index_to_string (length l1) ++ lit ": " ++ message e.
Proof.
  intros H He. split; [|reflexivity].
  unfold validateTasksArray. rewrite (forEach_validate_first 0 l1 t l2 e H He). reflexivity.
Qed.

Lemma validateTasksArray_first_failure_witness :
  validateTasksArray
    (JArr [task_with (JStr sample_id) (JStr (lit "Task 1")) (JBool false);
           task_with (JStr (lit "invalid-uuid")) (JStr (lit "Task 2")) (JBool true)])
  = Throw (Error (lit "Invalid task at index 1: Task id must be a valid UUID")).
Proof.
  destruct (validateTasksArray_first_failure
              [task_with (JStr sample_id) (JStr (lit "Task 1")) (JBool false)] []
              (task_with (JStr (lit "invalid-uuid")) (JStr (lit "Task 2")) (JBool true))
              InvalidId) as [H _].
  - constructor; [|constructor]. apply validateTask_valid. vm_compute. reflexivity.
  - vm_compute. reflexivity.
  - simpl app in H. rewrite H. vm_compute. reflexivity.
Defined.

Lemma without_none id l : Forall (fun t => has_id id t = false) (without id l).
Proof.
  unfold without. induction l as [|t l IH]; simpl; [constructor|].
  destruct (has_id id t) eqn:E; simpl; [exact IH | constructor; assumption].
Qed.

Lemma without_no_match id l :
  Forall (fun t => has_id id t = false) l -> without id l = l.
Proof.
  unfold without. induction 1 as [|t l Ht Hl IH]; simpl; [reflexivity|].
  rewrite Ht. simpl. rewrite IH. reflexivity.
Qed.

Lemma without_length id l : (length (without id l) <= length l)%nat.
Proof.
  unfold without. induction l as [|t l IH]; simpl; [lia|].
  destruct (negb (has_id id t)); simpl; lia.
Qed.

(** After [deleteTask(id)] on a well-formed collection no task has that id;
    deleting again changes nothing; deleting an id no task has leaves the
    collection as it is; the collection never grows. *)
Theorem deleteTask_removes (id : JsVal) (w : World) :
  valid_tasks (tasks w) ->
  let w1 := snd (deleteTask id w) in
  Forall (fun task => has_id id task = false) (elements_of (tasks w1)) /\
  tasks (snd (deleteTask id w1)) = tasks w1 /\
  (Forall (fun task => has_id id task = false) (elements_of (tasks w)) ->
   tasks w1 = tasks w) /\
  (length (elements_of (tasks w1)) <= length (elements_of (tasks w)))%nat.
Proof.
  intros (l & Hl & Hv). cbv zeta.
  rewrite (deleteTask_valid id l w Hl Hv).
  set (w1 := snd (write (lit "tasks") (JArr (without id l)) (with_tasks (JArr (without id l)) w))).
  assert (tasks w1 = JArr (without id l)) as H1 by (unfold w1; rewrite write_tasks; reflexivity).
  rewrite (deleteTask_valid id (without id l) w1 H1 (without_valid id l Hv)).
  rewrite write_tasks, H1, Hl. simpl.
  split; [apply without_none|]. split.
  - f_equal. apply without_no_match, without_none.
  - split; [|apply without_length]. intros H. f_equal. apply without_no_match, H.
Qed.

Lemma deleteTask_removes_witness :
  tasks (snd (deleteTask (JStr (lit "no-such-id")) sample_world)) = tasks sample_world.
Proof.
  apply (proj1 (proj2 (proj2 (deleteTask_removes (JStr (lit "no-such-id")) sample_world
                                StoreClaims.sample_world_valid)))).
  vm_compute. repeat constructor.
Defined.

Lemma with_completed_split l :
  Forall valid_task l -> Permutation l (with_completed true l ++ with_completed false l).
Proof.
  unfold with_completed. induction 1 as [|t l Ht Hl IH]; simpl; [constructor|].
  destruct (completed_valid_task t Ht) as [b Hb].
  assert (completed_is true t = b /\ completed_is false t = negb b) as [E1 E2]
    by (unfold completed_is; rewrite Hb; destruct b; split; reflexivity).
  rewrite E1, E2. destruct b; simpl.
  - constructor. exact IH.
  - apply Permutation_cons_app. exact IH.
Qed.

(** The two filtered views split a well-formed collection: every task is
    in exactly one of them, so together they are a rearrangement of the
    collection and their lengths add up to its length. *)
Theorem filteredTasks_partition (l : list JsVal) :
  Forall valid_task l ->
  exists done todo,
    filteredTasks (JArr l) (JStr (lit "completed")) = Return (JArr done) /\
    filteredTasks (JArr l) (JStr (lit "pending")) = Return (JArr todo) /\
    Permutation l (done ++ todo) /\
    (length done + length todo = length l)%nat.
Proof.
  intros H. exists (with_completed true l), (with_completed false l).
  split; [apply StoreClaims.filteredTasks_completed, H|].
  split; [apply StoreClaims.filteredTasks_pending, H|].
  pose proof (with_completed_split l H) as P. split; [exact P|].
  apply Permutation_length in P. rewrite length_app in P. lia.
Qed.

Lemma filteredTasks_partition_witness :
  exists done todo,
    filteredTasks (tasks sample_world) (JStr (lit "completed")) = Return (JArr done) /\
    filteredTasks (tasks sample_world) (JStr (lit "pending")) = Return (JArr todo) /\
    (length done + length todo = 1)%nat.
Proof.
  destruct (filteredTasks_partition
              [task_with (JStr sample_id) (JStr (lit "Buy milk")) (JBool false)])
    as (done & todo & H1 & H2 & _ & H3).
  - constructor; [|constructor]. apply validateTask_valid. vm_compute. reflexivity.
  - exists done, todo. auto.
Defined.

End MoreCollections.

(** ** The item and the form *)

Module Components.

Import Task useLocalStorage TaskContext TaskForm TaskItem Spec UUID Valid Collections Store.

Lemma id_valid_task t : valid_task t -> exists s, field t (lit "id") = JStr s.
Proof. intros (_ & (s & Hs & _) & _). eauto. Qed.

Lemma has_id_own t : valid_task t -> has_id (field t (lit "id")) t = true.
Proof.
  intros H. destruct (id_valid_task t H) as [s Hs]. unfold has_id. rewrite Hs. simpl.
  apply str_eqb_refl.
Qed.

Lemma has_id_same t t' :
  valid_task t -> valid_task t' -> has_id (field t (lit "id")) t' = true ->
  field t' (lit "id") = field t (lit "id").
Proof.
  intros H H'. destruct (id_valid_task t H) as [s Hs], (id_valid_task t' H') as [s' Hs'].
  unfold has_id. rewrite Hs, Hs'. simpl. intros E. apply str_eqb_eq in E. congruence.
Qed.

Lemma has_id_fresh t l :
  valid_task t -> Forall valid_task l -> ~ In (field t (lit "id")) (ids_of l) ->
  Forall (fun t' => has_id (field t (lit "id")) t' = false) l.
Proof.
  intros Ht Hl Hn. induction Hl as [|x l Hx Hl IH]; constructor.
  - destruct (has_id (field t (lit "id")) x) eqn:E; [|reflexivity].
    exfalso. apply Hn. left. apply has_id_same; assumption.
  - apply IH. intros Hin. apply Hn. right. exact Hin.
Qed.

Lemma toggled_unique l i t :
  Forall valid_task l -> List.NoDup (ids_of l) -> l !! i = Some t ->
  toggled (field t (lit "id")) l = <[i := flipped t]> l.
Proof.
  intros Hl. revert i. induction Hl as [|x l Hx Hl IH]; intros i Hnd Hi; [discriminate|].
  simpl in Hnd. inversion Hnd as [|? ? Hnotin Hnd']; subst.
  destruct i as [|i]; simpl in Hi.
  - injection Hi as ->. simpl. rewrite (has_id_own t Hx). f_equal.
    apply toggled_no_match, has_id_fresh; assumption.
  - assert (valid_task t) as Ht.
    { rewrite Forall_forall in Hl. eapply Hl, list_elem_of_lookup_2, Hi. }
    simpl. rewrite (IH i Hnd' Hi). f_equal.
    destruct (has_id (field t (lit "id")) x) eqn:E; [|reflexivity].
    exfalso. apply Hnotin. rewrite (has_id_same t x Ht Hx E).
    apply (List.in_map (fun task => field task (lit "id"))), list_elem_of_In.
      eapply list_elem_of_lookup_2, Hi.
Qed.

Lemma without_unique l i t :
  Forall valid_task l -> List.NoDup (ids_of l) -> l !! i = Some t ->
  without (field t (lit "id")) l = delete i l.
Proof.
  intros Hl. revert i. induction Hl as [|x l Hx Hl IH]; intros i Hnd Hi; [discriminate|].
  simpl in Hnd. inversion Hnd as [|? ? Hnotin Hnd']; subst.
  destruct i as [|i]; simpl in Hi.
  - injection Hi as ->. unfold without. simpl. rewrite (has_id_own t Hx). simpl.
    apply MoreCollections.without_no_match, has_id_fresh; assumption.
  - assert (valid_task t) as Ht.
    { rewrite Forall_forall in Hl. eapply Hl, list_elem_of_lookup_2, Hi. }
    unfold without. simpl.
    destruct (has_id (field t (lit "id")) x) eqn:E.
    + exfalso. apply Hnotin. rewrite (has_id_same t x Ht Hx E).
      apply (List.in_map (fun task => field task (lit "id"))), list_elem_of_In.
      eapply list_elem_of_lookup_2, Hi.
    + simpl. f_equal. apply (IH i Hnd' Hi).
Qed.

(** In a well-formed collection whose ids are pairwise distinct, the
    handlers of an item act on that item alone.  After its checkbox handler
    the task at the item's position has [completed] negated and every other
    property as before, and every other position holds what it held; its
    delete button removes the task at that position and no other.  Neither
    throws. *)
Theorem item_handlers_own_task (i : nat) (task : JsVal) (w : World) :
  valid_tasks (tasks w) -> List.NoDup (ids_of (elements_of (tasks w))) ->
  elements_of (tasks w) !! i = Some task ->
  fst (handleToggleCompletion task w) = Return tt /\
  tasks (snd (handleToggleCompletion task w))
    = JArr (<[i := flipped task]> (elements_of (tasks w))) /\
  (exists task' b,
     elements_of (tasks (snd (handleToggleCompletion task w))) !! i = Some task' /\
     field task (lit "completed") = JBool b /\
     field task' (lit "completed") = JBool (negb b) /\
     forall k, k <> lit "completed" -> field task' k = field task k) /\
  (forall j, j <> i ->
     elements_of (tasks (snd (handleToggleCompletion task w))) !! j
     = elements_of (tasks w) !! j) /\
  fst (handleDelete task w) = Return tt /\
  tasks (snd (handleDelete task w)) = JArr (delete i (elements_of (tasks w))).
Proof.
  intros (l & Hl & Hv) Hnd Hi. rewrite Hl in *. simpl in *.
  assert (valid_task task) as Ht.
  { rewrite Forall_forall in Hv. eapply Hv, list_elem_of_lookup_2, Hi. }
  unfold handleToggleCompletion, handleDelete, bind, pure.
  rewrite (field_valid_task task (lit "id") Ht).
  rewrite (toggleTaskCompletion_valid _ l w Hl Hv), (deleteTask_valid _ l w Hl Hv).
  rewrite !write_Return, !write_tasks. simpl.
  rewrite (toggled_unique l i task Hv Hnd Hi), (without_unique l i task Hv Hnd Hi).
  split; [reflexivity|]. split; [reflexivity|]. split; [|split; [|auto]].
  - destruct (flipped_fields task Ht) as (b & Hb & Hb' & Hk).
    exists (flipped task), b. split; [|auto].
    apply list_lookup_insert_eq. eapply lookup_lt_Some, Hi.
  - intros j Hj. apply list_lookup_insert_ne. congruence.
Qed.

Lemma item_handlers_own_task_witness :
  tasks (snd (handleDelete
                (task_with (JStr sample_id) (JStr (lit "Buy milk")) (JBool false))
                sample_world)) = JArr []
  /\ exists task',
       elements_of (tasks (snd (handleToggleCompletion
                                  (task_with (JStr sample_id) (JStr (lit "Buy milk"))
                                             (JBool false))
                                  sample_world))) !! 0%nat = Some task'
       /\ field task' (lit "completed") = JBool true.
Proof.
  destruct (item_handlers_own_task 0
              (task_with (JStr sample_id) (JStr (lit "Buy milk")) (JBool false))
              sample_world StoreClaims.sample_world_valid)
    as (_ & _ & (task' & b & Hl & Hb & Hb' & _) & _ & _ & H).
  - vm_compute. repeat constructor. intros [].
  - reflexivity.
  - split; [rewrite H; reflexivity|].
    exists task'. split; [exact Hl|].
    assert (b = false) as -> by (vm_compute in Hb; congruence).
    exact Hb'.
Defined.





End Components.

(** ** Case of the digits of an id *)

Module Case.

Import Task Spec UUID Valid.

Lemma position_ok_upper i c : position_ok i (upper c) = position_ok i c.
Proof.
  assert (is_hex_digit (upper c) = is_hex_digit c) as Hh.
  { unfold is_hex_digit, upper, in_range. apply eq_true_iff_eq.
    destruct (97 <=? c) eqn:?, (c <=? 122) eqn:?; simpl;
      rewrite ?orb_true_iff, ?andb_true_iff, ?N.leb_le; code_units; lia. }
  assert (is_variant_digit (upper c) = is_variant_digit c) as Hv.
  { unfold is_variant_digit, upper, in_range. apply eq_true_iff_eq.
    destruct (97 <=? c) eqn:?, (c <=? 122) eqn:?; simpl;
      rewrite ?orb_true_iff, ?N.eqb_eq; code_units; lia. }
  assert (forall x, x < 65 -> (upper c =? x) = (c =? x)) as Hc.
  { intros x Hx. unfold upper, in_range. apply eq_true_iff_eq.
    destruct (97 <=? c) eqn:?, (c <=? 122) eqn:?; simpl;
      rewrite ?N.eqb_eq; code_units; lia. }
  do 36 (destruct i as [|i];
         [ simpl; first [ exact Hh | exact Hv | apply Hc; lia ] | ]).
  exact Hh.
Qed.

Lemma lookup_map {A B} (f : A -> B) (l : list A) i :
  map f l !! i = option_map f (l !! i).
Proof.
  revert i. induction l as [|x l IH]; intros [|i]; simpl; try reflexivity. apply IH.
Qed.

(** [isValidUUID] does not see the case of letters: a string and the
    string with its ASCII letters in upper case are accepted or rejected
    together. *)
Theorem isValidUUID_ignores_case (s : jsstring) :
  isValidUUID (JStr (map upper s)) = isValidUUID (JStr s).
Proof.
  apply eq_true_iff_eq. rewrite !isValidUUID_valid_id. unfold valid_id. split.
  - intros (s' & [= <-] & Hl & Hp). exists s. split; [reflexivity|]. split.
    + rewrite length_map in Hl. exact Hl.
    + intros i c Hc. rewrite <- position_ok_upper. apply Hp.
      unfold jsstring in *. rewrite lookup_map, Hc. reflexivity.
  - intros (s' & [= <-] & Hl & Hp). exists (map upper s). split; [reflexivity|]. split.
    + rewrite length_map. exact Hl.
    + intros i c Hc. unfold jsstring in *. rewrite lookup_map in Hc.
      destruct (s !! i) as [c0|] eqn:E; [|discriminate].
      injection Hc as <-. rewrite position_ok_upper. apply Hp, E.
Qed.

End Case.

(** ** The filter buttons and the list *)

Module Views.

Import Task useLocalStorage TaskContext TaskFilters TaskList Spec UUID Valid Collections Store.

(** The filter buttons offer exactly the values [validateFilter] accepts,
    so a click on a button never throws: it makes the button's key the
    filter and leaves the tasks alone; after the next render that button,
    and no other, is the pressed one. *)
Theorem filter_buttons (w : World) :
  (forall v, valid_filter v <-> exists key label, In (key, label) filters /\ v = JStr key) /\
  (forall key label, In (key, label) filters ->
     fst (handleFilterChange (JStr key) w) = Return tt /\
     filter (snd (handleFilterChange (JStr key) w)) = JStr key /\
     tasks (snd (handleFilterChange (JStr key) w)) = tasks w /\
     forall cv, fst (TaskProvider (snd (handleFilterChange (JStr key) w))) = Return cv ->
       forall key' label', In (key', label') filters ->
         (pressed cv key' = true <-> key' = key)).
Proof.
  split.
  - intros v. unfold valid_filter, filters. simpl. split.
    + intros [->|[->| ->]]; eauto 10.
    + intros (key & label & [[= <- <-]|[[= <- <-]|[[= <- <-]|[]]]] & ->); auto.
  - intros key label Hin.
    assert (valid_filter (JStr key)) as Hv.
    { unfold filters in Hin. simpl in Hin. unfold valid_filter.
      destruct Hin as [[= <- <-]|[[= <- <-]|[[= <- <-]|[]]]]; auto. }
    unfold handleFilterChange. rewrite (StoreClaims.setFilter_valid (JStr key) w Hv).
    rewrite write_Return, write_filter, write_tasks. simpl.
    split; [reflexivity|]. split; [reflexivity|]. split; [reflexivity|].
    intros cv Hcv key' label' _.
    set (w1 := snd (write (lit "filter") (JStr key) (with_filter (JStr key) w))) in *.
    destruct (StoreClaims.TaskProvider_run w1) as (ft & _ & E & _).
    rewrite E in Hcv. injection Hcv as <-. unfold pressed. simpl.
    assert (filter w1 = JStr key) as F by (unfold w1; rewrite write_filter; reflexivity).
    unfold validated_filter. rewrite F.
    apply validateFilter_valid in Hv. rewrite Hv. simpl.
    rewrite str_eqb_eq. split; congruence.
Qed.

Lemma filter_buttons_witness :
  filter (snd (handleFilterChange (JStr (lit "pending")) sample_world))
  = JStr (lit "pending").
Proof.
  destruct (proj2 (filter_buttons sample_world) (lit "pending") (lit "Pending"))
    as (_ & H & _).
  - right. right. left. reflexivity.
  - exact H.
Defined.

Lemma items_of_valid l :
  Forall valid_task l ->
  items_of l = Return (map (fun task => (field task (lit "id"), task)) l).
Proof.
  induction 1 as [|t l Ht Hl IH]; simpl; [reflexivity|].
  rewrite (field_valid_task t _ Ht). simpl. rewrite IH. reflexivity.
Qed.

(** On what the provider exposes, whatever the store holds, the list never
    throws: the filtered view is an array; when it is empty the list shows
    the message of the filter in force, otherwise one item per task of the
    view, in order, keyed by the task's id. *)
Theorem TaskList_view (w : World) :
  exists cv l,
    fst (TaskProvider w) = Return cv /\ cv_filteredTasks cv = JArr l /\
    (l = [] -> TaskList cv = Return (EmptyMessage (getEmptyMessage (cv_filter cv)))) /\
    (l <> [] ->
       TaskList cv = Return (TaskItems (map (fun task => (field task (lit "id"), task)) l))) /\
    (cv_filter cv = JStr (lit "completed") ->
       getEmptyMessage (cv_filter cv) = lit "No completed tasks yet.") /\
    (cv_filter cv = JStr (lit "pending") ->
       getEmptyMessage (cv_filter cv) = lit "No pending tasks. Great job!") /\
    (cv_filter cv = JStr (lit "all") ->
       getEmptyMessage (cv_filter cv) = lit "No tasks yet. Add one above to get started!").
Proof.
  destruct (StoreClaims.TaskProvider_run w) as (ft & Hft & E & _).
  destruct (StoreClaims.filteredTasks_total (validated_tasks w) (validated_filter w)
              (StoreClaims.validated_tasks_valid w)) as (l & Hl & Hv).
  rewrite Hl in Hft. injection Hft as <-.
  eexists _, l. split; [exact E|]. split; [reflexivity|].
  unfold TaskList. simpl. split; [|split; [|split; [|split]]].
  - intros ->. reflexivity.
  - intros Hne. destruct l as [|t l]; [congruence|]. simpl length_is_zero. simpl.
    pose proof (items_of_valid (t :: l) Hv) as I. simpl in I. rewrite I. reflexivity.
  - intros ->. reflexivity.
  - intros ->. reflexivity.
  - intros ->. reflexivity.
Qed.

Lemma TaskList_view_witness :
  exists cv l,
    fst (TaskProvider sample_world) = Return cv /\ cv_filteredTasks cv = JArr l /\
    (l <> [] ->
       TaskList cv = Return (TaskItems (map (fun task => (field task (lit "id"), task)) l))).
Proof.
  destruct (TaskList_view sample_world) as (cv & l & H1 & H2 & _ & H3 & _).
  exists cv, l. auto.
Defined.

End Views.
